(** * QRIS-Utils: a shallow embedding of [src/QRIS.js]

    The class [QRIS] of the repository is a collection of static methods over
    JavaScript strings and plain objects:

    - [generateTag]     one TLV entry, [id ++ length ++ value];
    - [calculateCRC16]  the CRC-16/CCITT-FALSE checksum, rendered in hex;
    - [parseTLV]        the tolerant TLV scanner (a [while] loop);
    - [generate]        parse, set the amount, re-serialize, append the CRC;
    - [validate]        recompute the CRC behind the first ["6304"];
    - [extract]         parse and relabel tag ids with readable names.

    A JavaScript string is a sequence of UTF-16 code units; it is modelled as
    a list of integers.  A plain object used as a dictionary is a [gmap] from
    strings to values: the order in which JavaScript enumerates the keys is
    not modelled, and the source either sorts the keys ([rebuild]) or stores
    each entry under a label of its own ([extract]).  The bitwise operators
    of JavaScript work on 32-bit signed integers; their wrap-around is
    written out.  The [while] loop of [parseTLV] runs on fuel: a call returns,
    throws, or runs out of fuel.  The amount enters [generate] as the string
    [Number(dataAmount).toFixed(2)]; [toFixed2] gives it for the integers
    that a double holds exactly. *)

From Stdlib Require Import ZArith Ascii String.
From stdpp Require Import gmap list sorting fin_maps.

Local Open Scope Z_scope.

(** ** JavaScript strings *)

Module JS.

(** A UTF-16 code unit and a string of them. *)
Definition codeunit := Z.
Abbreviation jstr := (list Z).

(** The code units of a string literal of the source. *)
Definition lit (s : string) : jstr :=
  map (fun a => Z.of_nat (nat_of_ascii a)) (list_ascii_of_string s).

(** Every code unit of a well-formed string is a 16-bit value. *)
Definition wf_str (s : jstr) : Prop := Forall (fun c => 0 <= c < 65536) s.

(** [s.length] *)
Definition len (s : jstr) : Z := Z.of_nat (length s).

(** [s.slice(a, b)]: a negative index counts from the end, both indices are
    clamped to the string, and an empty range gives the empty string. *)
Definition slice (s : jstr) (a b : Z) : jstr :=
  let from := if a <? 0 then Z.max (len s + a) 0 else Z.min a (len s) in
  let to := if b <? 0 then Z.max (len s + b) 0 else Z.min b (len s) in
  take (Z.to_nat (to - from)) (drop (Z.to_nat from) s).

(** [pat] starts [s]. *)
Fixpoint startsWith (s pat : jstr) : bool :=
  match pat, s with
  | [], _ => true
  | _ :: _, [] => false
  | p :: pat', c :: s' => (p =? c) && startsWith s' pat'
  end.

(** The scan of [s.indexOf(pat)], [k] being the index of the head of [s]. *)
Fixpoint indexOf_from (s pat : jstr) (k : Z) : Z :=
  if startsWith s pat then k
  else match s with
       | [] => -1
       | _ :: s' => indexOf_from s' pat (k + 1)
       end.

(** [s.indexOf(pat)]: the index of the first occurrence, or [-1]. *)
Definition indexOf (s pat : jstr) : Z := indexOf_from s pat 0.

(** [s.includes(pat)] *)
Fixpoint includes (s pat : jstr) : bool :=
  startsWith s pat ||
  match s with
  | [] => false
  | _ :: s' => includes s' pat
  end.

(** [s.padStart(n, c)] with a one-character filler. *)
Definition padStart (n : nat) (c : codeunit) (s : jstr) : jstr :=
  replicate (n - length s) c ++ s.

(** The digit of [d] in [Number.prototype.toString]: [0-9] then [a-z]. *)
Definition digitChar (d : Z) : codeunit :=
  if d <? 10 then 48 + d else 87 + d.

(** The digits of a positive number, most significant first.  The fuel is
    the number of bits of the number, which bounds the number of digits. *)
Fixpoint digits (fuel : nat) (radix n : Z) (acc : jstr) : jstr :=
  match fuel with
  | O => acc
  | S fuel' =>
      let acc' := digitChar (n mod radix) :: acc in
      if n / radix =? 0 then acc' else digits fuel' radix (n / radix) acc'
  end.

(** [n.toString(radix)] for an integer [n]. *)
Definition toString (radix n : Z) : jstr :=
  if n <? 0
  then 45 :: digits (S (Z.to_nat (Z.log2 (- n)))) radix (- n) []
  else digits (S (Z.to_nat (Z.log2 n))) radix n [].

(** [s.toUpperCase()] on the Basic Latin letters; the source applies it to
    the output of [toString(16)] only. *)
Definition upperChar (c : codeunit) : codeunit :=
  if (97 <=? c) && (c <=? 122) then c - 32 else c.
Definition toUpperCase (s : jstr) : jstr := map upperChar s.

(** *** 32-bit integers of the bitwise operators *)

(** [ToInt32]: reduction modulo 2^32 into the signed range. *)
Definition toInt32 (z : Z) : Z := (z + 2 ^ 31) mod 2 ^ 32 - 2 ^ 31.

(** [a << b], [a ^ b] and [a & b]. *)
Definition shl32 (a b : Z) : Z := toInt32 (Z.shiftl (toInt32 a) (b mod 32)).
Definition xor32 (a b : Z) : Z := toInt32 (Z.lxor (toInt32 a) (toInt32 b)).
Definition and32 (a b : Z) : Z := toInt32 (Z.land (toInt32 a) (toInt32 b)).

(** *** [parseInt(s, 10)] *)

(** White space and line terminators skipped by [parseInt]. *)
Definition isWhiteSpace (c : codeunit) : bool :=
  ((9 <=? c) && (c <=? 13)) || (c =? 32) || (c =? 160) || (c =? 5760)
  || ((8192 <=? c) && (c <=? 8202)) || (c =? 8232) || (c =? 8233)
  || (c =? 8239) || (c =? 8287) || (c =? 12288) || (c =? 65279).

Definition isDigit (c : codeunit) : bool := (48 <=? c) && (c <=? 57).

Fixpoint skipWhiteSpace (s : jstr) : jstr :=
  match s with
  | c :: s' => if isWhiteSpace c then skipWhiteSpace s' else s
  | [] => []
  end.

(** The value of the longest prefix of decimal digits, and whether there
    was a digit at all. *)
Fixpoint readDigits (s : jstr) (acc : Z) (seen : bool) : option Z :=
  match s with
  | c :: s' =>
      if isDigit c then readDigits s' (10 * acc + (c - 48)) true
      else if seen then Some acc else None
  | [] => if seen then Some acc else None
  end.

(** [parseInt(s, 10)]; [None] is [NaN].  White space is skipped, a sign is
    read, then the longest run of digits.  The integer is exact (the source
    reads two characters), and [-0] is [0]. *)
Definition parseInt (s : jstr) : option Z :=
  match skipWhiteSpace s with
  | c :: s' =>
      if c =? 45 then Z.opp <$> readDigits s' 0 false
      else if c =? 43 then readDigits s' 0 false
      else readDigits (c :: s') 0 false
  | [] => None
  end.

End JS.
Import JS.

(** ** The methods of [QRIS] *)

(** [generateTag(id, value)] *)
Definition generateTag (id value : jstr) : jstr :=
  let length := padStart 2 48 (toString 10 (len value)) in
  id ++ length ++ value.

(** One round of the inner loop of [calculateCRC16]. *)
Definition crc_round (crc : Z) : Z :=
  let crc := if and32 crc 0x8000 =? 0
             then shl32 crc 1
             else xor32 (shl32 crc 1) 0x1021 in
  and32 crc 0xFFFF.

(** The body of the outer loop: the character [c] is consumed. *)
Definition crc_char (crc : Z) (c : codeunit) : Z :=
  Nat.iter 8 crc_round (xor32 crc (shl32 c 8)).

(** [calculateCRC16(data)] *)
Definition calculateCRC16 (data : jstr) : jstr :=
  let crc := fold_left crc_char data 0xFFFF in
  padStart 4 48 (toUpperCase (toString 16 crc)).

(** ** Values and outcomes *)

(** The values stored in the objects of the source: a string, or a nested
    object ([typeof val === 'object']). *)
#[warnings="-register-all"]
Inductive tlv : Type :=
  | Str (s : jstr)
  | Obj (m : gmap jstr tlv).

(** The error of [throw new Error(message)]. *)
Inductive jsError : Type := Error (message : jstr).

(** How a call ends: it returns, it throws, or the fuel given to its loops
    ran out before it ended. *)
Inductive outcome (A : Type) : Type :=
  | Ret (a : A)
  | Throw (e : jsError)
  | OutOfFuel.
Arguments Ret {A} a.
Arguments Throw {A} e.
Arguments OutOfFuel {A}.

(** [recurseTags.includes(id)] on an array of strings. *)
Definition arrayIncludes (tags : list jstr) (id : jstr) : bool :=
  bool_decide (id ∈ tags).

(** The [while] loop of [parseTLV], from position [i] with the entries
    [result] stored so far.  Each iteration and each recursive call takes
    one unit of fuel. *)
Fixpoint parseTLV_loop (fuel : nat) (data : jstr) (recurseTags : list jstr)
    (i : Z) (result : gmap jstr tlv) : outcome (gmap jstr tlv) :=
  match fuel with
  | O => OutOfFuel
  | S fuel' =>
      if i + 4 <=? len data then
        let id := slice data i (i + 2) in
        match parseInt (slice data (i + 2) (i + 4)) with
        | None => Ret result
        | Some n =>
            let value := slice data (i + 4) (i + 4 + n) in
            if i + 4 + n >? len data then Ret result
            else if arrayIncludes recurseTags id then
              match parseTLV_loop fuel' value recurseTags 0 ∅ with
              | Ret sub =>
                  parseTLV_loop fuel' data recurseTags (i + (4 + n))
                    (<[id := Obj sub]> result)
              | Throw e => Throw e
              | OutOfFuel => OutOfFuel
              end
            else
              parseTLV_loop fuel' data recurseTags (i + (4 + n))
                (<[id := Str value]> result)
        end
      else Ret result
  end.

(** [parseTLV(data, recurseTags)] *)
Definition parseTLV (fuel : nat) (data : jstr) (recurseTags : list jstr)
    : outcome (gmap jstr tlv) :=
  parseTLV_loop fuel data recurseTags 0 ∅.

(** The comparison of the default [Array.prototype.sort]: strings are
    ordered by their code units, a proper prefix first. *)
Fixpoint str_ltb (a b : jstr) : bool :=
  match a, b with
  | _, [] => false
  | [], _ :: _ => true
  | x :: a', y :: b' =>
      if x <? y then true else if y <? x then false else str_ltb a' b'
  end.

Definition str_lt (a b : jstr) : Prop := str_ltb a b = true.
Definition str_le (a b : jstr) : Prop := str_ltb b a = false.

#[global] Instance str_le_dec (a b : jstr) : Decision (str_le a b).
Proof. unfold str_le. apply _. Defined.

(** [Object.keys(obj).sort()] *)
Definition sortedKeys {A} (obj : gmap jstr A) : list jstr :=
  merge_sort str_le (elements (dom obj : gset jstr)).

(** The entries [rebuild] emits for an object whose values are already
    strings: [Object.keys(obj).sort().map(...)]. *)
Definition emitted (obj : gmap jstr jstr) : list jstr :=
  map (fun id => generateTag id (default [] (obj !! id))) (sortedKeys obj).

(** [rebuild(obj)], on a value: a string stands for itself, an object is
    serialized entry by entry, nested objects first.  Mapping [rebuild_val]
    over the object is what the recursive call under [obj[id]] amounts to
    (lemma [rebuild_entries] below has the shape of the source). *)
Fixpoint rebuild_val (v : tlv) : jstr :=
  match v with
  | Str s => s
  | Obj m => concat (emitted (rebuild_val <$> m))
  end.

Definition rebuild (obj : gmap jstr tlv) : jstr := rebuild_val (Obj obj).

(** [Number(dataAmount).toFixed(2)] for an integer amount that a double
    holds exactly (every integer up to 2^53 in absolute value) and that is
    below 10^21 in absolute value: the decimal digits and two zero decimals.
    Other amounts (integers that [Number] rounds, fractions, [NaN],
    infinities) are not rendered by this function; [generate] takes the
    rendered string as its argument. *)
Definition toFixed2 (n : Z) : jstr := toString 10 n ++ lit ".00".

(** The header of the CRC entry: tag ["63"], length ["04"]. *)
Definition crcHeader : jstr := lit "6304".

(** The message of the error of [generate]; [34] is the double quote. *)
Definition missingCrcMessage : jstr :=
  lit "Invalid QRIS base: CRC tag " ++ [34] ++ crcHeader ++ [34]
  ++ lit " not found".

(** A string is truthy when it is not empty. *)
Definition truthy (s : jstr) : bool :=
  match s with [] => false | _ => true end.

(** [generate(dataQris, dataAmount, dataInvoice, dataDescription)], where
    [amountFixed] is the string [Number(dataAmount).toFixed(2)]. *)
Definition generate (fuel : nat) (dataQris amountFixed dataInvoice
    dataDescription : jstr) : outcome jstr :=
  if negb (includes dataQris crcHeader) then Throw (Error missingCrcMessage)
  else
    let baseQR := slice dataQris 0 (indexOf dataQris crcHeader) in
    match parseTLV fuel baseQR [] with
    | Ret tlv0 =>
        let tlv1 := <[lit "54" := Str amountFixed]> tlv0 in
        let tlv2 :=
          if truthy dataInvoice || truthy dataDescription then
            let addData0 : gmap jstr tlv := ∅ in
            let addData1 :=
              if truthy dataInvoice
              then <[lit "01" := Str dataInvoice]> addData0 else addData0 in
            let addData2 :=
              if truthy dataDescription
              then <[lit "07" := Str dataDescription]> addData1
              else addData1 in
            <[lit "62" := Obj addData2]> tlv1
          else tlv1 in
        let qrWithoutCRC := rebuild tlv2 ++ crcHeader in
        let crc := calculateCRC16 qrWithoutCRC in
        Ret (qrWithoutCRC ++ crc)
    | Throw e => Throw e
    | OutOfFuel => OutOfFuel
    end.

(** [validate(qrString)] *)
Definition validate (qrString : jstr) : bool :=
  let index := indexOf qrString crcHeader in
  if (index =? -1) || (len qrString <? index + 8) then false
  else
    let withoutCRC := slice qrString 0 (index + 4) in
    let expectedCRC := slice qrString (index + 4) (index + 8) in
    let calculatedCRC := calculateCRC16 withoutCRC in
    bool_decide (expectedCRC = calculatedCRC).

(** The table [tagMap] of [extract]. *)
Definition merchantLabel (id : string) : jstr * jstr :=
  (lit id, lit "Merchant Account Info (" ++ lit id ++ lit ")").

Definition tagTable : list (jstr * jstr) :=
  [ (lit "00", lit "Payload Format Indicator");
    (lit "01", lit "Point of Initiation Method") ]
  ++ map merchantLabel
       [ "26"; "27"; "28"; "29"; "30"; "31"; "32"; "33"; "34"; "35"; "36";
         "37"; "38"; "39"; "40"; "41"; "42"; "43"; "44"; "45"; "46"; "47";
         "48"; "49"; "50"; "51" ]%string
  ++ [ (lit "52", lit "Merchant Category Code");
       (lit "53", lit "Transaction Currency");
       (lit "54", lit "Transaction Amount");
       (lit "55", lit "Tip or Convenience Indicator");
       (lit "56", lit "Value of Convenience Fee Fixed");
       (lit "57", lit "Value of Convenience Fee Percentage");
       (lit "58", lit "Country Code");
       (lit "59", lit "Merchant Name");
       (lit "60", lit "Merchant City");
       (lit "61", lit "Postal Code");
       (lit "62", lit "Additional Data");
       (lit "63", lit "CRC") ].

Definition tagMap : gmap jstr jstr := list_to_map tagTable.

(** The table of the labels of the entries nested in an object. *)
Definition subTagTable : list (jstr * jstr) :=
  [ (lit "00", lit "Global Unique ID");
    (lit "01", lit "Invoice Number");
    (lit "07", lit "Description") ].

Definition subTagMap : gmap jstr jstr := list_to_map subTagTable.

(** [table[key] || `Tag ${key}`]: every label of the tables is a non-empty
    string, hence truthy. *)
Definition labelOf (table : gmap jstr jstr) (key : jstr) : jstr :=
  match table !! key with
  | Some label => if truthy label then label else lit "Tag " ++ key
  | None => lit "Tag " ++ key
  end.

(** The inner loop of [extract]: [nested[subLabel] = subVal] for every
    entry of [val]. *)
Definition relabelNested (val : gmap jstr tlv) : gmap jstr tlv :=
  map_fold (fun subKey subVal nested =>
              <[labelOf subTagMap subKey := subVal]> nested) ∅ val.

(** The outer loop of [extract] over the entries of [raw]. *)
Definition relabel (raw : gmap jstr tlv) : gmap jstr tlv :=
  map_fold (fun key val result =>
              match val with
              | Obj m => <[labelOf tagMap key := Obj (relabelNested m)]> result
              | Str _ => <[labelOf tagMap key := val]> result
              end) ∅ raw.

(** [extract(qrString)] *)
Definition extract (fuel : nat) (qrString : jstr) : outcome (gmap jstr tlv) :=
  let recurseTags := [lit "62"] in
  match parseTLV fuel qrString recurseTags with
  | Ret raw => Ret (relabel (delete (lit "63") raw))
  | Throw e => Throw e
  | OutOfFuel => OutOfFuel
  end.

(** ** CRC-16/CCITT-FALSE as the specification words it

    A 16-bit register starts at [0xFFFF].  A character is XORed into the
    high byte of the register; then, eight times, the register is shifted
    left by one bit, XORed with the polynomial [0x1021] when its high bit was
    set, and masked to 16 bits.  The register is rendered as four uppercase
    hexadecimal digits.  Nothing here is a 32-bit operation. *)
Module CcittFalse.

Definition round (reg : Z) : Z :=
  let shifted := Z.shiftl reg 1 in
  Z.land (if Z.testbit reg 15 then Z.lxor shifted 0x1021 else shifted) 0xFFFF.

Definition feed (reg : Z) (c : codeunit) : Z :=
  Nat.iter 8 round (Z.lxor reg (Z.shiftl c 8)).

Definition register (data : jstr) : Z := fold_left feed data 0xFFFF.

(** The uppercase hexadecimal digit of [d]: [0-9] then [A-F]. *)
Definition upperHexDigit (d : Z) : codeunit :=
  if d <? 10 then 48 + d else 55 + d.

(** Four uppercase hexadecimal digits, zeros on the left. *)
Definition hex4 (reg : Z) : jstr :=
  [ upperHexDigit (reg / 4096 mod 16); upperHexDigit (reg / 256 mod 16);
    upperHexDigit (reg / 16 mod 16); upperHexDigit (reg mod 16) ].

Definition checksum (data : jstr) : jstr := hex4 (register data).

End CcittFalse.

(** An uppercase hexadecimal digit: [0-9] or [A-F]. *)
Definition isUpperHex (c : codeunit) : Prop :=
  48 <= c <= 57 \/ 65 <= c <= 70.

(** A decimal digit. *)
Definition isDecimalDigit (c : codeunit) : Prop := 48 <= c <= 57.

(** ** Vocabulary of the statements *)

(** [pat] occurs in [s] at index [i]. *)
Definition occursAt (pat s : jstr) (i : nat) : Prop :=
  pat `prefix_of` drop i s.

(** [i] is the index of the first occurrence of [pat] in [s]. *)
Definition firstOccurrence (pat s : jstr) (i : nat) : Prop :=
  occursAt pat s i /\ forall j, (j < i)%nat -> ~ occursAt pat s j.

(** An entry [id ++ field ++ value] whose length field is two decimal
    digits that spell the number of characters of [value]. *)
Definition twoDigitLengthEntry (entry id value : jstr) : Prop :=
  exists d1 d2,
    entry = id ++ [d1; d2] ++ value
    /\ isDecimalDigit d1 /\ isDecimalDigit d2
    /\ 10 * (d1 - 48) + (d2 - 48) = len value.

(** The entry [rebuild] emits for the key [id] of [obj]. *)
Definition entryOf (obj : gmap jstr tlv) (id : jstr) : jstr :=
  generateTag id (from_option rebuild_val [] (obj !! id)).

(** [typeof val === 'object'] *)
Definition isObj (val : tlv) : Prop :=
  match val with Obj _ => True | Str _ => False end.

(** A table whose labels are non-empty, do not start with ["Tag "] and are
    pairwise different. *)
Definition goodTable (table : list (jstr * jstr)) : Prop :=
  forallb (fun kl => truthy kl.2 && negb (startsWith kl.2 (lit "Tag "))) table
  = true
  /\ NoDup table.*2.

(** The base payload of the test suite of the repository. *)
Definition staticBase : jstr :=
  lit "00020101021126560012ID.GPNQR01189360091123456789020215ID20232541239390303UMI5204581253033605802ID5914RESTORASI MESJID6013JAKARTA SELATAN61051234563044E67".

(** ** Vocabulary of the further properties *)

(** [result[id] = value] for each entry in turn: a later entry with the same
    id replaces an earlier one. *)
Definition storeEntries (entries : list (jstr * jstr))
    (result : gmap jstr tlv) : gmap jstr tlv :=
  fold_left (fun r e => <[e.1 := Str e.2]> r) entries result.

(** The entries written one after the other by [generateTag]. *)
Definition serializeEntries (entries : list (jstr * jstr)) : jstr :=
  concat (map (fun e => generateTag e.1 e.2) entries).

(** An entry the format can hold: an id of 2 characters that is not a
    container tag, and a value of at most 99 characters. *)
Definition wellFormedEntry (recurseTags : list jstr) (e : jstr * jstr) : Prop :=
  length e.1 = 2%nat /\ (length e.2 <= 99)%nat /\ e.1 ∉ recurseTags.

(** A rest at which the scan stops: fewer than 4 characters, a length field
    that is not a number, or a length that passes the end. *)
Definition stopsScan (rest : jstr) : Prop :=
  len rest < 4
  \/ parseInt (slice rest 2 4) = None
  \/ exists n, parseInt (slice rest 2 4) = Some n /\ 4 + n > len rest.

(** An object whose ids have 2 characters and whose values are strings of
    at most 99 characters. *)
Definition flatObject (obj : gmap jstr tlv) : Prop :=
  forall id val, obj !! id = Some val ->
    length id = 2%nat /\ exists s, val = Str s /\ (length s <= 99)%nat.

(** The entries [rebuild] writes for an object, as a list. *)
Definition entriesOf (obj : gmap jstr tlv) : list (jstr * jstr) :=
  map (fun id => (id, from_option rebuild_val [] (obj !! id))) (sortedKeys obj).

(** The value [generate] gives to tag ["62"]: the invoice under ["01"] and
    the description under ["07"], each only when it is not empty. *)
Definition additionalData (dataInvoice dataDescription : jstr) : jstr :=
  (if truthy dataInvoice then generateTag (lit "01") dataInvoice else [])
  ++ (if truthy dataDescription
      then generateTag (lit "07") dataDescription else []).

(** The entries of an object in the order of [rebuild], with their values. *)
Definition itemsOf (obj : gmap jstr tlv) : list (jstr * tlv) :=
  map (fun id => (id, default (Str []) (obj !! id))) (sortedKeys obj).

(** Those entries written one after the other, as [rebuild] does. *)
Definition serializeItems (items : list (jstr * tlv)) : jstr :=
  concat (map (fun e => generateTag e.1 (rebuild_val e.2)) items).

(** [result[id] = val] for each of them in turn. *)
Definition storeItems (items : list (jstr * tlv))
    (result : gmap jstr tlv) : gmap jstr tlv :=
  fold_left (fun r e => <[e.1 := e.2]> r) items result.

(** A flat object none of whose ids is a container tag. *)
Definition flatUnder (recurseTags : list jstr) (obj : gmap jstr tlv) : Prop :=
  forall id val, obj !! id = Some val ->
    length id = 2%nat /\ (id ∉ recurseTags)
    /\ exists s, val = Str s /\ (length s <= 99)%nat.

(** An entry that is scanned back to its value: a string under an id that
    is not a container tag, or under a container tag a flat object without
    container tags; in both cases the serialized value has at most 99
    characters. *)
Definition scanItem (recurseTags : list jstr) (e : jstr * tlv) : Prop :=
  length e.1 = 2%nat /\ (length (rebuild_val e.2) <= 99)%nat
  /\ match e.2 with
     | Str _ => e.1 ∉ recurseTags
     | Obj sub => e.1 ∈ recurseTags /\ flatUnder recurseTags sub
     end.

(** An object all of whose entries are scanned back. *)
Definition scannable (recurseTags : list jstr) (obj : gmap jstr tlv) : Prop :=
  forall id val, obj !! id = Some val -> scanItem recurseTags (id, val).

(** The positions the loop of [parseTLV] reaches: it starts at 0 and goes
    from [i] to [i + (4 + len)] when 4 characters remain, the length field is
    a number and the value does not pass the end. *)
Inductive scanPosition (data : jstr) : Z -> Prop :=
  | scan_start : scanPosition data 0
  | scan_next (i n : Z) :
      scanPosition data i ->
      i + 4 <= len data ->
      parseInt (slice data (i + 2) (i + 4)) = Some n ->
      i + 4 + n <= len data ->
      scanPosition data (i + (4 + n)).

(** * Properties *)

(** ** Rendering numbers *)

Section Digits.
Variable radix : Z.
Hypothesis radix_gt_1 : 1 < radix.

Lemma digits_small fuel n acc :
  0 <= n < radix -> digits (S fuel) radix n acc = digitChar n :: acc.
Proof.
  intros Hn. simpl.
  rewrite Z.div_small, Z.mod_small by lia. reflexivity.
Qed.

Lemma digits_step fuel n acc :
  radix <= n ->
  digits (S fuel) radix n acc =
  digits fuel radix (n / radix) (digitChar (n mod radix) :: acc).
Proof.
  intros Hn. simpl.
  assert (0 < n / radix) by (apply Z.div_str_pos; lia).
  destruct (Z.eqb_spec (n / radix) 0); [lia | reflexivity].
Qed.

(** Fuel beyond the number of digits changes nothing. *)
Lemma digits_fuel_mono f : forall f' n acc,
  0 <= n < radix ^ Z.of_nat (S f) -> (f <= f')%nat ->
  digits (S f) radix n acc = digits (S f') radix n acc.
Proof.
  induction f as [|f IH]; intros f' n acc Hn Hle.
  - change (Z.of_nat 1) with 1 in Hn. rewrite Z.pow_1_r in Hn.
    rewrite !digits_small by lia. reflexivity.
  - destruct (Z_lt_le_dec n radix) as [Hlt|Hge].
    + rewrite !digits_small by lia. reflexivity.
    + destruct f' as [|f']; [lia|].
      rewrite (digits_step (S f)), (digits_step (S f')) by lia.
      apply IH; [|lia].
      split; [apply Z.div_pos; lia|].
      apply Z.div_lt_upper_bound; [lia|].
      rewrite <- Z.pow_succ_r by lia.
      replace (Z.succ (Z.of_nat (S f))) with (Z.of_nat (S (S f))) by lia.
      lia.
Qed.

(** The fuel [toString] gives is enough for every number. *)
Lemma log2_fuel_enough n :
  0 <= n -> n < radix ^ Z.of_nat (S (Z.to_nat (Z.log2 n))).
Proof.
  intros Hn.
  destruct (Z.eq_dec n 0) as [->|Hnz].
  - apply Z.pow_pos_nonneg; lia.
  - pose proof (Z.log2_nonneg n) as Hl.
    replace (Z.of_nat (S (Z.to_nat (Z.log2 n)))) with (Z.succ (Z.log2 n))
      by lia.
    pose proof (Z.log2_spec n ltac:(lia)) as [_ Hup].
    eapply Z.lt_le_trans; [exact Hup|].
    apply Z.pow_le_mono_l. lia.
Qed.

(** [toString] with any fuel that is enough. *)
Lemma toString_fuel k n :
  0 <= n < radix ^ Z.of_nat (S k) ->
  toString radix n = digits (S k) radix n [].
Proof.
  intros Hn. unfold toString.
  destruct (Z.ltb_spec n 0); [lia|].
  set (a := Z.to_nat (Z.log2 n)).
  rewrite (digits_fuel_mono a (Nat.max a k)), (digits_fuel_mono k (Nat.max a k));
    auto using log2_fuel_enough with lia.
Qed.
End Digits.

(** Two decimal digits, zero on the left: the length field of an entry. *)
Lemma toString10_two_digits n :
  0 <= n < 100 ->
  padStart 2 48 (toString 10 n) = [48 + n / 10; 48 + n mod 10].
Proof.
  intros Hn.
  rewrite (toString_fuel 10 ltac:(lia) 1) by (simpl; lia).
  destruct (Z_lt_le_dec n 10) as [Hlt|Hge].
  - rewrite digits_small by lia.
    rewrite Z.div_small, Z.mod_small by lia.
    unfold digitChar. destruct (Z.ltb_spec n 10); [|lia]. reflexivity.
  - rewrite digits_step by lia.
    assert (0 <= n mod 10 < 10) by (apply Z.mod_pos_bound; lia).
    assert (1 <= n / 10 < 10)
      by (split; [apply Z.div_le_lower_bound|apply Z.div_lt_upper_bound]; lia).
    rewrite digits_small by lia.
    unfold digitChar.
    destruct (Z.ltb_spec (n mod 10) 10); [|lia].
    destruct (Z.ltb_spec (n / 10) 10); [|lia]. reflexivity.
Qed.

Lemma upperChar_digitChar d :
  0 <= d < 16 -> upperChar (digitChar d) = CcittFalse.upperHexDigit d.
Proof.
  intros Hd. unfold upperChar, digitChar, CcittFalse.upperHexDigit.
  destruct (Z.ltb_spec d 10).
  - destruct (Z.leb_spec 97 (48 + d)); [lia|]. reflexivity.
  - destruct (Z.leb_spec 97 (87 + d)); [|lia].
    destruct (Z.leb_spec (87 + d) 122); [|lia]. simpl. lia.
Qed.

(** The rendering of [calculateCRC16] on a 16-bit value: exactly the four
    uppercase hexadecimal digits of the value. *)
Lemma render_hex4 n :
  0 <= n < 65536 ->
  padStart 4 48 (toUpperCase (toString 16 n)) = CcittFalse.hex4 n.
Proof.
  intros Hn.
  rewrite (toString_fuel 16 ltac:(lia) 3) by (simpl; lia).
  unfold CcittFalse.hex4.
  assert (Hm : forall x, 0 <= x mod 16 < 16)
    by (intros; apply Z.mod_pos_bound; lia).
  assert (Hz : CcittFalse.upperHexDigit 0 = 48) by reflexivity.
  destruct (Z_lt_le_dec n 16) as [H1|H1].
  { rewrite digits_small by lia.
    rewrite (Z.div_small n 4096), (Z.div_small n 256), (Z.div_small n 16),
      (Z.mod_small n 16) by lia.
    cbn [toUpperCase map padStart length Nat.sub replicate app].
    rewrite upperChar_digitChar by lia. rewrite Z.mod_0_l, Hz by lia.
    reflexivity. }
  rewrite digits_step by lia.
  assert (Hd1 : 1 <= n / 16 < 4096)
    by (split; [apply Z.div_le_lower_bound|apply Z.div_lt_upper_bound]; lia).
  assert (E256 : n / 256 = n / 16 / 16)
    by (rewrite Z.div_div by lia; reflexivity).
  assert (E4096 : n / 4096 = n / 16 / 16 / 16)
    by (rewrite !Z.div_div by lia; reflexivity).
  rewrite E256, E4096.
  destruct (Z_lt_le_dec (n / 16) 16) as [H2|H2].
  { rewrite digits_small by lia.
    rewrite (Z.div_small (n / 16) 16), (Z.mod_small (n / 16) 16) by lia.
    cbn [toUpperCase map padStart length Nat.sub replicate app].
    rewrite !upperChar_digitChar by (auto; lia).
    rewrite Z.div_0_l, Z.mod_0_l, Hz by lia. reflexivity. }
  rewrite digits_step by lia.
  assert (Hd2 : 1 <= n / 16 / 16 < 256)
    by (split; [apply Z.div_le_lower_bound|apply Z.div_lt_upper_bound]; lia).
  destruct (Z_lt_le_dec (n / 16 / 16) 16) as [H3|H3].
  { rewrite digits_small by lia.
    rewrite (Z.div_small (n / 16 / 16) 16), (Z.mod_small (n / 16 / 16) 16)
      by lia.
    cbn [toUpperCase map padStart length Nat.sub replicate app].
    rewrite !upperChar_digitChar by (auto; lia).
    rewrite Z.mod_0_l, Hz by lia. reflexivity. }
  rewrite digits_step by lia.
  assert (Hd3 : 1 <= n / 16 / 16 / 16 < 16)
    by (split; [apply Z.div_le_lower_bound|apply Z.div_lt_upper_bound]; lia).
  rewrite digits_small by lia.
  rewrite (Z.mod_small (n / 16 / 16 / 16) 16) by lia.
  cbn [toUpperCase map padStart length Nat.sub replicate app].
  rewrite !upperChar_digitChar by (auto; lia). reflexivity.
Qed.

Lemma upperHexDigit_isUpperHex d :
  0 <= d < 16 -> isUpperHex (CcittFalse.upperHexDigit d).
Proof.
  intros Hd. unfold isUpperHex, CcittFalse.upperHexDigit.
  destruct (Z.ltb_spec d 10); lia.
Qed.

Lemma hex4_shape n :
  length (CcittFalse.hex4 n) = 4%nat /\ Forall isUpperHex (CcittFalse.hex4 n).
Proof.
  split; [reflexivity|].
  unfold CcittFalse.hex4.
  repeat (apply Forall_cons_2;
          [apply upperHexDigit_isUpperHex, Z.mod_pos_bound; lia|]).
  apply Forall_nil_2.
Qed.

(** ** The checksum *)

Lemma toInt32_small z : - 2 ^ 31 <= z < 2 ^ 31 -> toInt32 z = z.
Proof. intros Hz. unfold toInt32. rewrite Z.mod_small; lia. Qed.

Lemma land_0xFFFF z : Z.land z 0xFFFF = z mod 65536.
Proof. change 0xFFFF with (Z.ones 16). rewrite Z.land_ones by lia. reflexivity. Qed.

Lemma lxor_bound n a b :
  0 <= n -> 0 <= a < 2 ^ n -> 0 <= b < 2 ^ n -> 0 <= Z.lxor a b < 2 ^ n.
Proof.
  intros Hn Ha Hb.
  assert (E : Z.lxor a b = Z.lxor a b mod 2 ^ n).
  { rewrite <- Z.land_ones by lia.
    apply Z.bits_inj'. intros i Hi.
    rewrite Z.land_spec, !Z.lxor_spec.
    destruct (Z_lt_le_dec i n) as [Hlt|Hge].
    - rewrite Z.ones_spec_low by lia. rewrite andb_true_r. reflexivity.
    - rewrite Z.ones_spec_high by lia.
      rewrite <- (Z.mod_small a (2 ^ n)), <- (Z.mod_small b (2 ^ n)) by lia.
      rewrite !Z.mod_pow2_bits_high by lia. reflexivity. }
  rewrite E. apply Z.mod_pos_bound. lia.
Qed.

(** Masking with one bit against testing that bit. *)
Lemma land_bit15 z : Z.land z 0x8000 = if Z.testbit z 15 then 0x8000 else 0.
Proof.
  apply Z.bits_inj'. intros i Hi.
  rewrite Z.land_spec. change 0x8000 with (2 ^ 15).
  rewrite Z.pow2_bits_eqb by lia.
  destruct (Z.eqb_spec 15 i) as [<-|Hne].
  - destruct (Z.testbit z 15); reflexivity.
  - rewrite andb_false_r.
    destruct (Z.testbit z 15);
      [rewrite Z.pow2_bits_false by lia | rewrite Z.bits_0]; reflexivity.
Qed.

Lemma land_bit15_zero z : (Z.land z 0x8000 =? 0) = negb (Z.testbit z 15).
Proof. rewrite land_bit15. destruct (Z.testbit z 15); reflexivity. Qed.

(** Whatever enters a round, a 16-bit value leaves it. *)
Lemma crc_round_range crc : 0 <= crc_round crc < 65536.
Proof.
  unfold crc_round, and32.
  set (x := if _ =? 0 then _ else _).
  rewrite (toInt32_small 65535) by lia.
  rewrite land_0xFFFF.
  pose proof (Z.mod_pos_bound (toInt32 x) 65536 ltac:(lia)).
  rewrite toInt32_small; lia.
Qed.

(** On a 16-bit register no 32-bit operation of a round wraps around. *)
Lemma crc_round_refines crc :
  0 <= crc < 65536 -> crc_round crc = CcittFalse.round crc.
Proof.
  intros Hc. unfold crc_round, CcittFalse.round, and32, xor32, shl32.
  change (1 mod 32) with 1.
  rewrite (toInt32_small crc), (toInt32_small 0x8000),
    (toInt32_small 0xFFFF), (toInt32_small 0x1021) by lia.
  rewrite (Z.shiftl_mul_pow2 crc 1) by lia. change (2 ^ 1) with 2.
  rewrite !(toInt32_small (crc * 2)) by lia.
  assert (Hb : 0 <= Z.land crc 0x8000 < 65536)
    by (rewrite land_bit15; destruct (Z.testbit crc 15); lia).
  rewrite (toInt32_small (Z.land crc 0x8000)) by lia.
  rewrite land_bit15_zero.
  pose proof (lxor_bound 17 (crc * 2) 0x1021 ltac:(lia) ltac:(lia) ltac:(lia)).
  destruct (Z.testbit crc 15); simpl negb; cbv iota.
  - rewrite !(toInt32_small (Z.lxor (crc * 2) 0x1021)) by lia.
    rewrite land_0xFFFF.
    apply toInt32_small.
    pose proof (Z.mod_pos_bound (Z.lxor (crc * 2) 0x1021) 65536); lia.
  - rewrite !(toInt32_small (crc * 2)) by lia.
    rewrite land_0xFFFF.
    apply toInt32_small.
    pose proof (Z.mod_pos_bound (crc * 2) 65536); lia.
Qed.

Lemma fold_left_cons {A B} (f : A -> B -> A) (x : B) (l : list B) (a : A) :
  fold_left f (x :: l) a = fold_left f l (f a x).
Proof. reflexivity. Qed.

Lemma crc_char_range crc c : 0 <= crc_char crc c < 65536.
Proof. unfold crc_char. rewrite Nat.iter_succ. apply crc_round_range. Qed.

Lemma crc_register_range data : forall crc,
  0 <= crc < 65536 -> 0 <= fold_left crc_char data crc < 65536.
Proof.
  induction data as [|c data IH]; intros crc Hc; [exact Hc|].
  rewrite fold_left_cons. apply IH. apply crc_char_range.
Qed.

Lemma iter_round_refines n : forall crc,
  0 <= crc < 65536 ->
  Nat.iter n crc_round crc = Nat.iter n CcittFalse.round crc
  /\ 0 <= Nat.iter n crc_round crc < 65536.
Proof.
  induction n as [|n IH]; intros crc Hc; [split; [reflexivity|exact Hc]|].
  destruct (IH crc Hc) as [E Hr].
  rewrite !Nat.iter_succ.
  split; [|apply crc_round_range].
  rewrite <- E. apply crc_round_refines. exact Hr.
Qed.

(** With a character below 256 the XOR into the high byte stays within
    16 bits, so the body of the outer loop is the one of the
    specification. *)
Lemma crc_char_refines crc c :
  0 <= crc < 65536 -> 0 <= c <= 255 -> crc_char crc c = CcittFalse.feed crc c.
Proof.
  intros Hc Hch. unfold crc_char, CcittFalse.feed, xor32, shl32.
  change (8 mod 32) with 8.
  rewrite (toInt32_small c), (toInt32_small crc) by lia.
  rewrite Z.shiftl_mul_pow2 by lia. change (2 ^ 8) with 256.
  rewrite !(toInt32_small (c * 256)) by lia.
  pose proof (lxor_bound 16 crc (c * 256) ltac:(lia) ltac:(lia) ltac:(lia)).
  rewrite toInt32_small by lia.
  apply iter_round_refines. lia.
Qed.

Lemma crc_register_refines data : forall crc,
  0 <= crc < 65536 -> Forall (fun c => 0 <= c <= 255) data ->
  fold_left crc_char data crc = fold_left CcittFalse.feed data crc.
Proof.
  induction data as [|c data IH]; intros crc Hc Hd; [reflexivity|].
  apply Forall_cons in Hd as [Hch Hd]. rewrite !fold_left_cons.
  rewrite <- crc_char_refines by assumption.
  apply IH; [apply crc_char_range | exact Hd].
Qed.

(** C2.  For every string whose characters all have code points in 0..255,
    [calculateCRC16] is CRC-16/CCITT-FALSE as the specification words it: the
    register starts at [0xFFFF], each character is XORed into its high byte
    and followed by eight shift-and-conditional-XOR rounds with polynomial
    [0x1021] masked to 16 bits, and the result is the register in four
    uppercase hexadecimal digits, zeros on the left. *)
Theorem calculateCRC16_is_ccitt_false (data : jstr) :
  Forall (fun c => 0 <= c <= 255) data ->
  calculateCRC16 data = CcittFalse.checksum data.
Proof.
  intros Hd. unfold calculateCRC16, CcittFalse.checksum, CcittFalse.register.
  rewrite render_hex4 by (apply crc_register_range; lia).
  rewrite crc_register_refines by (auto; lia). reflexivity.
Qed.

Lemma calculateCRC16_is_ccitt_false_witness :
  Forall (fun c => 0 <= c <= 255) (lit "123456789")
  /\ calculateCRC16 (lit "123456789") = CcittFalse.checksum (lit "123456789").
Proof.
  assert (H : Forall (fun c => 0 <= c <= 255) (lit "123456789")).
  { apply Forall_forall. intros c Hc. apply list_elem_of_In in Hc.
    vm_compute in Hc. intuition (subst; lia). }
  split; [exact H|].
  exact (calculateCRC16_is_ccitt_false _ H).
Defined.

Lemma calculateCRC16_hex4 data :
  calculateCRC16 data = CcittFalse.hex4 (fold_left crc_char data 0xFFFF).
Proof.
  unfold calculateCRC16. apply render_hex4, crc_register_range. lia.
Qed.

Lemma calculateCRC16_length data : length (calculateCRC16 data) = 4%nat.
Proof. rewrite calculateCRC16_hex4. reflexivity. Qed.

(** C10.  For every string, also with code units above 255,
    [calculateCRC16] returns exactly four characters, each an uppercase
    hexadecimal digit: every round masks the register to 16 bits, and the
    rendering pads with zeros up to four digits. *)
Theorem calculateCRC16_four_upper_hex (data : jstr) :
  length (calculateCRC16 data) = 4%nat
  /\ Forall isUpperHex (calculateCRC16 data).
Proof. rewrite calculateCRC16_hex4. apply hex4_shape. Qed.

(** The check value of the CRC catalogue, and a code unit above 255. *)
Example calculateCRC16_check : calculateCRC16 (lit "123456789") = lit "29B1".
Proof. vm_compute. reflexivity. Qed.

Example calculateCRC16_wide :
  calculateCRC16 [0x20AC; 0x3042] = calculateCRC16 [0xAC; 0x42].
Proof. vm_compute. reflexivity. Qed.

(** ** Searching a string *)

Lemma startsWith_prefix s : forall pat,
  startsWith s pat = true <-> pat `prefix_of` s.
Proof.
  induction s as [|c s IH]; intros [|p pat]; cbn [startsWith].
  - split; [intros _; apply prefix_nil | reflexivity].
  - split; [discriminate | intros H; apply prefix_nil_inv in H; discriminate].
  - split; [intros _; apply prefix_nil | reflexivity].
  - rewrite andb_true_iff, Z.eqb_eq, IH. split.
    + intros [-> H]. apply prefix_cons, H.
    + intros H. split; [apply prefix_cons_inv_1 in H | apply prefix_cons_inv_2 in H];
        auto.
Qed.

Lemma occursAt_dec pat s i :
  startsWith (drop i s) pat = true <-> occursAt pat s i.
Proof. apply startsWith_prefix. Qed.

(** [indexOf] finds the first occurrence, and answers [-1] only when there
    is none. *)
Lemma indexOf_from_spec pat s : forall k,
  0 <= k ->
  (indexOf_from s pat k = -1 /\ forall j, ~ occursAt pat s j)
  \/ (exists i, indexOf_from s pat k = k + Z.of_nat i
                /\ (i <= length s)%nat /\ firstOccurrence pat s i).
Proof.
  induction s as [|c s IH]; intros k Hk; cbn [indexOf_from].
  - destruct (startsWith [] pat) eqn:E.
    + right. exists 0%nat. split; [lia|]. split; [reflexivity|].
      split; [apply startsWith_prefix, E | intros j Hj; lia].
    + left. split; [reflexivity|]. intros j Hj.
      unfold occursAt in Hj. rewrite drop_nil in Hj.
      apply startsWith_prefix in Hj. congruence.
  - destruct (startsWith (c :: s) pat) eqn:E.
    + right. exists 0%nat. split; [lia|]. split; [cbn; lia|].
      split; [apply startsWith_prefix, E | intros j Hj; lia].
    + destruct (IH (k + 1) ltac:(lia)) as [[E1 Hno]|(i & E1 & Hi & Hocc & Hfirst)].
      * left. split; [exact E1|]. intros [|j] Hj.
        -- unfold occursAt in Hj. cbn [drop] in Hj.
           apply startsWith_prefix in Hj. congruence.
        -- apply (Hno j). exact Hj.
      * right. exists (S i). split; [lia|]. split; [cbn; lia|].
        split; [exact Hocc|]. intros [|j] Hj Hj'.
        -- unfold occursAt in Hj'. cbn [drop] in Hj'.
           apply startsWith_prefix in Hj'. congruence.
        -- apply (Hfirst j); [lia | exact Hj'].
Qed.

Lemma firstOccurrence_unique pat s i j :
  firstOccurrence pat s i -> firstOccurrence pat s j -> i = j.
Proof.
  intros [Hi Hni] [Hj Hnj].
  destruct (Nat.lt_trichotomy i j) as [H|[H|H]]; [|exact H|].
  - destruct (Hnj i H Hi).
  - destruct (Hni j H Hj).
Qed.

Lemma indexOf_absent pat s :
  (forall j, ~ occursAt pat s j) -> indexOf s pat = -1.
Proof.
  intros Hno. unfold indexOf.
  destruct (indexOf_from_spec pat s 0 ltac:(lia)) as [[E _]|(i & _ & _ & [Hi _])];
    [exact E | destruct (Hno i Hi)].
Qed.

Lemma indexOf_first pat s i :
  firstOccurrence pat s i ->
  indexOf s pat = Z.of_nat i /\ (i <= length s)%nat.
Proof.
  intros Hi. unfold indexOf.
  destruct (indexOf_from_spec pat s 0 ltac:(lia)) as [[_ Hno]|(j & E & Hj & Hocc)].
  - destruct (Hno i (proj1 Hi)).
  - rewrite (firstOccurrence_unique _ _ _ _ Hi Hocc). split; [lia | exact Hj].
Qed.

Lemma includes_spec pat s :
  includes s pat = true <-> exists i, occursAt pat s i.
Proof.
  induction s as [|c s IH]; cbn [includes]; rewrite orb_true_iff.
  - rewrite startsWith_prefix. split.
    + intros [H|H]; [exists 0%nat; exact H | discriminate].
    + intros [i Hi]. left. unfold occursAt in Hi.
      rewrite drop_nil in Hi. exact Hi.
  - rewrite startsWith_prefix, IH. split.
    + intros [H|[i Hi]]; [exists 0%nat; exact H | exists (S i); exact Hi].
    + intros [[|i] Hi]; [left; exact Hi | right; exists i; exact Hi].
Qed.

(** A slice between two indices inside the string. *)
Lemma slice_inside s (a b : nat) :
  (a <= b <= length s)%nat ->
  slice s (Z.of_nat a) (Z.of_nat b) = take (b - a) (drop a s).
Proof.
  intros H. unfold slice, len.
  destruct (Z.ltb_spec (Z.of_nat a) 0); [lia|].
  destruct (Z.ltb_spec (Z.of_nat b) 0); [lia|].
  rewrite !Z.min_l by lia.
  f_equal; [lia|]. f_equal. lia.
Qed.

(** ** [validate] *)

(** The prefix up to and including an occurrence of the pattern. *)
Lemma take_through_occurrence pat s i :
  occursAt pat s i -> take (i + length pat) s = take i s ++ pat.
Proof.
  intros [k Hk]. rewrite <- take_take_drop, Hk.
  rewrite take_app_length. reflexivity.
Qed.

(** Behind the first header: too short a rest, or the comparison. *)
Lemma validate_at_first qrString i :
  firstOccurrence crcHeader qrString i ->
  validate qrString =
  if (length qrString <? i + 8)%nat then false
  else bool_decide (take 4 (drop (i + 4) qrString)
                    = calculateCRC16 (take i qrString ++ crcHeader)).
Proof.
  intros Hi. pose proof (indexOf_first _ _ _ Hi) as [E Hle].
  unfold validate. rewrite E.
  destruct (Z.eqb_spec (Z.of_nat i) (-1)); [lia|]. rewrite orb_false_l.
  destruct (Nat.ltb_spec (length qrString) (i + 8)).
  - destruct (Z.ltb_spec (len qrString) (Z.of_nat i + 8)); [reflexivity|].
    unfold len in *. lia.
  - destruct (Z.ltb_spec (len qrString) (Z.of_nat i + 8));
      [unfold len in *; lia|].
    replace (Z.of_nat i + 4) with (Z.of_nat (i + 4)) by lia.
    replace (Z.of_nat i + 8) with (Z.of_nat (i + 8)) by lia.
    change 0 with (Z.of_nat 0).
    rewrite !slice_inside by lia.
    replace (i + 8 - (i + 4))%nat with 4%nat by lia.
    rewrite drop_0, Nat.sub_0_r.
    apply bool_decide_ext.
    rewrite <- (take_through_occurrence _ _ _ (proj1 Hi)). reflexivity.
Qed.

(** C5.  [validate] is a total boolean function.  It answers [false] when
    ["6304"] does not occur in the payload, and when fewer than 8 characters
    remain from its first occurrence.  Otherwise it answers [true] exactly
    when the 4 characters behind that first header are, code unit for code
    unit, the uppercase checksum [calculateCRC16] computes for the prefix
    that ends with the header. *)
Theorem validate_first_crc (qrString : jstr) :
  ((forall j, ~ occursAt crcHeader qrString j) -> validate qrString = false)
  /\ (forall i, firstOccurrence crcHeader qrString i ->
        ((length qrString < i + 8)%nat -> validate qrString = false)
        /\ ((i + 8 <= length qrString)%nat ->
            (validate qrString = true <->
             take 4 (drop (i + 4) qrString)
             = calculateCRC16 (take i qrString ++ crcHeader)))).
Proof.
  split.
  - intros Hno. unfold validate.
    rewrite (indexOf_absent _ _ Hno). reflexivity.
  - intros i Hi. rewrite (validate_at_first _ _ Hi).
    destruct (Nat.ltb_spec (length qrString) (i + 8)); split; intros Hlen;
      try lia; first [reflexivity | apply bool_decide_eq_true].
Qed.

Lemma validate_first_crc_witness :
  firstOccurrence crcHeader (lit "63046007") 0
  /\ (8 <= length (lit "63046007"))%nat
  /\ validate (lit "63046007") = true.
Proof.
  assert (H : firstOccurrence crcHeader (lit "63046007") 0).
  { split; [exists (lit "6007"); reflexivity | intros j Hj; lia]. }
  assert (Hl : (0 + 8 <= length (lit "63046007"))%nat) by (vm_compute; lia).
  split; [exact H|]. split; [exact Hl|].
  apply (proj2 (validate_first_crc (lit "63046007")) 0%nat H).
  - exact Hl.
  - vm_compute. reflexivity.
Defined.

(** ** [generateTag] *)

(** C7, as amended.  For every tag id and every value of at most 99
    characters, the entry of [generateTag] is the id, then two decimal
    digits, zero on the left, that spell the number of characters of the
    value, then the value. *)
Theorem generateTag_two_digit_length (id value : jstr) :
  (length value <= 99)%nat ->
  twoDigitLengthEntry (generateTag id value) id value.
Proof.
  intros Hlen. unfold generateTag, twoDigitLengthEntry.
  assert (Hn : 0 <= len value < 100) by (unfold len; lia).
  rewrite toString10_two_digits by exact Hn.
  exists (48 + len value / 10), (48 + len value mod 10).
  split; [reflexivity|].
  pose proof (Z.mod_pos_bound (len value) 10 ltac:(lia)).
  assert (0 <= len value / 10 < 10)
    by (split; [apply Z.div_pos | apply Z.div_lt_upper_bound]; lia).
  unfold isDecimalDigit. repeat split; try lia.
  pose proof (Z.div_mod (len value) 10 ltac:(lia)). lia.
Qed.

Lemma generateTag_two_digit_length_witness :
  (length (lit "10000.00") <= 99)%nat
  /\ twoDigitLengthEntry (generateTag (lit "54") (lit "10000.00"))
       (lit "54") (lit "10000.00").
Proof.
  assert (H : (length (lit "10000.00") <= 99)%nat) by (vm_compute; lia).
  split; [exact H|].
  exact (generateTag_two_digit_length (lit "54") (lit "10000.00") H).
Defined.

(** C7, as stated, fails on a value of 100 characters: the length field
    takes three digits, [100]. *)
Lemma generateTag_three_digit_length :
  generateTag (lit "00") (replicate 100 65)
  = lit "00" ++ lit "100" ++ replicate 100 65
  /\ ~ twoDigitLengthEntry (generateTag (lit "00") (replicate 100 65))
         (lit "00") (replicate 100 65).
Proof.
  split; [vm_compute; reflexivity|].
  intros (d1 & d2 & E & _). apply (f_equal length) in E.
  vm_compute in E. discriminate.
Qed.

(** ** What can throw *)

Lemma parseTLV_loop_no_throw fuel : forall data recurseTags i result e,
  parseTLV_loop fuel data recurseTags i result <> Throw e.
Proof.
  induction fuel as [|fuel IH]; intros data recurseTags i result e;
    cbn [parseTLV_loop]; [discriminate|].
  destruct (i + 4 <=? len data); [|discriminate].
  destruct (parseInt _) as [n|]; [|discriminate].
  destruct (i + 4 + n >? len data); [discriminate|].
  destruct (arrayIncludes _ _); [|apply IH].
  destruct (parseTLV_loop fuel (slice _ _ _) _ _ _) as [sub|e'|] eqn:E;
    [apply IH | destruct (IH _ _ _ _ _ E) | discriminate].
Qed.

Lemma extract_no_throw fuel qrString e : extract fuel qrString <> Throw e.
Proof.
  unfold extract.
  destruct (parseTLV fuel qrString _) as [t|e'|] eqn:E; try discriminate.
  destruct (parseTLV_loop_no_throw _ _ _ _ _ _ E).
Qed.

(** C6.  [generate] throws exactly when ["6304"] does not occur in the base
    payload, whatever the other arguments and the fuel; the error it throws
    is always [Error('Invalid QRIS base: CRC tag "6304" not found')], whose
    message names the missing tag.  [parseTLV] and [extract] never throw;
    [validate], [calculateCRC16] and [generateTag] are total functions,
    since their source has no [throw] and calls no throwing method. *)
Theorem generate_throws_iff_header_missing
    (fuel : nat) (dataQris amountFixed dataInvoice dataDescription : jstr) :
  (generate fuel dataQris amountFixed dataInvoice dataDescription
   = Throw (Error missingCrcMessage)
   <-> ~ exists i, occursAt crcHeader dataQris i)
  /\ (forall e,
        generate fuel dataQris amountFixed dataInvoice dataDescription
        = Throw e -> e = Error missingCrcMessage)
  /\ includes missingCrcMessage crcHeader = true
  /\ (forall recurseTags e, parseTLV fuel dataQris recurseTags <> Throw e)
  /\ (forall e, extract fuel dataQris <> Throw e).
Proof.
  assert (Hgen : forall e,
    generate fuel dataQris amountFixed dataInvoice dataDescription = Throw e ->
    includes dataQris crcHeader = false /\ e = Error missingCrcMessage).
  { intros e. unfold generate.
    destruct (includes dataQris crcHeader); cbn [negb].
    - destruct (parseTLV fuel _ _) as [t|e'|] eqn:E; try discriminate.
      destruct (parseTLV_loop_no_throw _ _ _ _ _ _ E).
    - intros [= <-]. split; reflexivity. }
  repeat split.
  - intros H. apply Hgen in H as [H _].
    rewrite <- includes_spec. congruence.
  - intros H. unfold generate.
    destruct (includes dataQris crcHeader) eqn:E; [|reflexivity].
    destruct H. apply includes_spec, E.
  - intros e H. apply Hgen in H as [_ H]. exact H.
  - intros recurseTags e. apply parseTLV_loop_no_throw.
  - intros e. apply extract_no_throw.
Qed.

(** ** The order of the serialized entries *)

Lemma str_ltb_irrefl a : str_ltb a a = false.
Proof.
  induction a as [|x a IH]; [reflexivity|]. cbn [str_ltb].
  destruct (Z.ltb_spec x x); [lia | exact IH].
Qed.

Lemma str_ltb_asym a : forall b, str_ltb a b = true -> str_ltb b a = false.
Proof.
  induction a as [|x a IH]; intros [|y b]; cbn [str_ltb]; try congruence.
  destruct (Z.ltb_spec x y), (Z.ltb_spec y x); try congruence; try lia.
  apply IH.
Qed.

Lemma str_ltb_trichotomy a : forall b,
  str_ltb a b = false -> str_ltb b a = false -> a = b.
Proof.
  induction a as [|x a IH]; intros [|y b]; cbn [str_ltb]; try congruence.
  destruct (Z.ltb_spec x y), (Z.ltb_spec y x); try congruence.
  intros Ha Hb. f_equal; [lia | apply IH; assumption].
Qed.

Lemma str_ltb_trans a : forall b c,
  str_ltb a b = true -> str_ltb b c = true -> str_ltb a c = true.
Proof.
  induction a as [|x a IH]; intros [|y b] [|z c]; cbn [str_ltb];
    try congruence.
  destruct (Z.ltb_spec x y), (Z.ltb_spec y x), (Z.ltb_spec y z),
    (Z.ltb_spec z y), (Z.ltb_spec x z), (Z.ltb_spec z x);
    try congruence; try lia.
  apply IH.
Qed.

#[global] Instance str_le_total : Total str_le.
Proof.
  intros a b. unfold str_le.
  destruct (str_ltb b a) eqn:E; [right; apply str_ltb_asym, E | left; reflexivity].
Qed.

#[global] Instance str_le_trans : Transitive str_le.
Proof.
  intros a b c Hab Hbc. unfold str_le in *.
  destruct (str_ltb c a) eqn:Hca; [|reflexivity].
  destruct (str_ltb a b) eqn:E.
  - rewrite (str_ltb_trans _ _ _ Hca E) in Hbc. discriminate.
  - rewrite (str_ltb_trichotomy _ _ E Hab) in Hca. congruence.
Qed.

Lemma str_le_neq_lt a b : str_le a b -> a <> b -> str_lt a b.
Proof.
  unfold str_le, str_lt. intros Hle Hne.
  destruct (str_ltb a b) eqn:E; [reflexivity|].
  destruct Hne. apply str_ltb_trichotomy; assumption.
Qed.

(** A list without duplicates sorted for [str_le] is strictly ascending. *)
Lemma StronglySorted_str_lt l :
  StronglySorted str_le l -> NoDup l -> StronglySorted str_lt l.
Proof.
  induction 1 as [|x l Hs IH Hx]; intros Hnd; constructor.
  - apply IH. apply NoDup_cons in Hnd. tauto.
  - apply NoDup_cons in Hnd as [Hnotin _].
    apply Forall_forall. intros y Hy.
    apply str_le_neq_lt; [eapply Forall_forall in Hx; eauto|].
    intros ->. contradiction.
Qed.

Lemma sortedKeys_elem {A} (obj : gmap jstr A) id :
  id ∈ sortedKeys obj <-> is_Some (obj !! id).
Proof.
  unfold sortedKeys.
  rewrite merge_sort_Permutation, elem_of_elements, elem_of_dom. reflexivity.
Qed.

Lemma sortedKeys_ascending {A} (obj : gmap jstr A) :
  StronglySorted str_lt (sortedKeys obj).
Proof.
  apply StronglySorted_str_lt.
  - apply StronglySorted_merge_sort; apply _.
  - unfold sortedKeys. rewrite merge_sort_Permutation. apply NoDup_elements.
Qed.

Lemma sortedKeys_fmap {A B} (f : A -> B) (obj : gmap jstr A) :
  sortedKeys (f <$> obj) = sortedKeys obj.
Proof. unfold sortedKeys. rewrite dom_fmap_L. reflexivity. Qed.

Lemma rebuild_val_Obj m : rebuild_val (Obj m) = concat (emitted (rebuild_val <$> m)).
Proof. reflexivity. Qed.

Lemma rebuild_entries obj :
  rebuild obj = concat (map (entryOf obj) (sortedKeys obj)).
Proof.
  unfold rebuild. rewrite rebuild_val_Obj. unfold emitted.
  rewrite sortedKeys_fmap. f_equal. apply map_ext. intros id.
  unfold entryOf. rewrite lookup_fmap.
  destruct (obj !! id); reflexivity.
Qed.

(** C8.  For every object, [rebuild] emits one entry per key, the keys in
    strictly ascending order of their code units; a nested object is
    serialized by the same function, so this holds at each level. *)
Theorem rebuild_ascending_tags (obj : gmap jstr tlv) :
  rebuild obj = concat (map (entryOf obj) (sortedKeys obj))
  /\ StronglySorted str_lt (sortedKeys obj)
  /\ (forall id, id ∈ sortedKeys obj <-> is_Some (obj !! id))
  /\ (forall id sub, obj !! id = Some (Obj sub) ->
        entryOf obj id = generateTag id (rebuild sub)).
Proof.
  split; [apply rebuild_entries|].
  split; [apply sortedKeys_ascending|].
  split; [apply sortedKeys_elem|].
  intros id sub H. unfold entryOf. rewrite H. reflexivity.
Qed.

(** The body of what [generate] returns is such a serialization. *)
Corollary generate_ascending_tags
    fuel dataQris amountFixed dataInvoice dataDescription out :
  generate fuel dataQris amountFixed dataInvoice dataDescription = Ret out ->
  exists obj : gmap jstr tlv,
    let body := concat (map (entryOf obj) (sortedKeys obj)) in
    out = (body ++ crcHeader) ++ calculateCRC16 (body ++ crcHeader)
    /\ StronglySorted str_lt (sortedKeys obj)
    /\ obj !! lit "54" = Some (Str amountFixed).
Proof.
  unfold generate. destruct (negb _); [discriminate|].
  destruct (parseTLV fuel _ _) as [t| |]; [|discriminate..].
  intros [= <-]. eexists. cbv zeta. rewrite <- rebuild_entries.
  split; [reflexivity|]. split; [apply sortedKeys_ascending|].
  destruct (truthy dataInvoice || truthy dataDescription).
  - rewrite lookup_insert_ne by (intros [=]). apply lookup_insert_eq.
  - apply lookup_insert_eq.
Qed.

(** ** The scanner *)

Lemma parseTLV_loop_S fuel data recurseTags i result :
  parseTLV_loop (S fuel) data recurseTags i result =
  if i + 4 <=? len data then
    match parseInt (slice data (i + 2) (i + 4)) with
    | None => Ret result
    | Some n =>
        if i + 4 + n >? len data then Ret result
        else if arrayIncludes recurseTags (slice data i (i + 2)) then
          match parseTLV_loop fuel (slice data (i + 4) (i + 4 + n))
                  recurseTags 0 ∅ with
          | Ret sub =>
              parseTLV_loop fuel data recurseTags (i + (4 + n))
                (<[slice data i (i + 2) := Obj sub]> result)
          | Throw e => Throw e
          | OutOfFuel => OutOfFuel
          end
        else
          parseTLV_loop fuel data recurseTags (i + (4 + n))
            (<[slice data i (i + 2) := Str (slice data (i + 4) (i + 4 + n))]>
               result)
    end
  else Ret result.
Proof. reflexivity. Qed.

(** The scan stops, with the entries stored so far, when fewer than 4
    characters remain, when the length field is not a number, and when the
    value would pass the end of the input. *)
Lemma parseTLV_loop_stops fuel data recurseTags i result :
  i + 4 > len data
  \/ parseInt (slice data (i + 2) (i + 4)) = None
  \/ (exists n, parseInt (slice data (i + 2) (i + 4)) = Some n
                /\ i + 4 + n > len data) ->
  parseTLV_loop (S fuel) data recurseTags i result = Ret result.
Proof.
  intros H. rewrite parseTLV_loop_S.
  destruct (Z.leb_spec (i + 4) (len data)); [|reflexivity].
  destruct H as [H|[H|(n & H & Hn)]]; [lia | rewrite H; reflexivity |].
  rewrite H. destruct (Z.gtb_spec (i + 4 + n) (len data)); [reflexivity | lia].
Qed.

(** A length field with a minus sign is read as a negative number. *)
Example parseInt_negative :
  parseInt (lit "-1") = Some (-1) /\ parseInt (lit "-4") = Some (-4).
Proof. split; reflexivity. Qed.

Example parseInt_lenient :
  parseInt (lit " 7") = Some 7 /\ parseInt (lit "7x") = Some 7
  /\ parseInt (lit "+7") = Some 7 /\ parseInt (lit "x7") = None.
Proof. repeat split; reflexivity. Qed.

(** C3, at the input ["00-1"].  The length field ["-1"] is not a
    non-negative integer, yet the scan does not stop there with the empty
    result: it stores the entry ["00"] with an empty value and goes on from
    position 3.  The guard of the source tests [isNaN(len)] and the upper
    bound only. *)
Theorem parseTLV_negative_length_stored (fuel : nat) :
  parseTLV (S (S fuel)) (lit "00-1") [] = Ret {[ lit "00" := Str [] ]}.
Proof.
  unfold parseTLV. rewrite parseTLV_loop_S.
  change (0 + 4 <=? len (lit "00-1")) with true. cbv iota.
  change (parseInt (slice (lit "00-1") (0 + 2) (0 + 4))) with (Some (-1)).
  cbv iota beta.
  change (0 + 4 + -1 >? len (lit "00-1")) with false. cbv iota.
  change (arrayIncludes [] (slice (lit "00-1") 0 (0 + 2))) with false.
  cbv iota.
  change (0 + (4 + -1)) with 3.
  rewrite parseTLV_loop_stops by (left; vm_compute; reflexivity).
  reflexivity.
Qed.

(** At ["00-4"] an iteration stores an entry and leaves the position where
    it was. *)
Lemma parseTLV_loop_negative_step fuel recurseTags result :
  parseTLV_loop (S fuel) (lit "00-4") recurseTags 0 result =
  if arrayIncludes recurseTags (lit "00") then
    match parseTLV_loop fuel [] recurseTags 0 ∅ with
    | Ret sub =>
        parseTLV_loop fuel (lit "00-4") recurseTags 0
          (<[lit "00" := Obj sub]> result)
    | Throw e => Throw e
    | OutOfFuel => OutOfFuel
    end
  else
    parseTLV_loop fuel (lit "00-4") recurseTags 0
      (<[lit "00" := Str []]> result).
Proof.
  rewrite parseTLV_loop_S.
  change (0 + 4 <=? len (lit "00-4")) with true. cbv iota.
  change (parseInt (slice (lit "00-4") (0 + 2) (0 + 4))) with (Some (-4)).
  cbv iota beta.
  change (0 + 4 + -4 >? len (lit "00-4")) with false. cbv iota.
  reflexivity.
Qed.

Lemma parseTLV_loop_negative_stuck fuel : forall recurseTags result,
  parseTLV_loop fuel (lit "00-4") recurseTags 0 result = OutOfFuel.
Proof.
  induction fuel as [|fuel IH]; intros recurseTags result; [reflexivity|].
  rewrite parseTLV_loop_negative_step.
  destruct (arrayIncludes recurseTags (lit "00")); [|apply IH].
  destruct (parseTLV_loop fuel [] recurseTags 0 ∅) as [sub|e|] eqn:E;
    [apply IH | destruct (parseTLV_loop_no_throw _ _ _ _ _ _ E) | reflexivity].
Qed.

(** C4, at the input ["00-4"].  The length field ["-4"] is read as [-4];
    the iteration stores the entry ["00"] and adds [4 + -4 = 0] to the
    position, so the loop never ends: no fuel is enough for [parseTLV], nor
    for [extract] on that payload, nor for [generate] on a base that starts
    with it. *)
Theorem parseTLV_negative_length_never_ends (fuel : nat) :
  (forall recurseTags, parseTLV fuel (lit "00-4") recurseTags = OutOfFuel)
  /\ (forall result,
        parseTLV_loop (S fuel) (lit "00-4") [] 0 result
        = parseTLV_loop fuel (lit "00-4") [] 0 (<[lit "00" := Str []]> result))
  /\ extract fuel (lit "00-4") = OutOfFuel
  /\ (forall amountFixed dataInvoice dataDescription,
        generate fuel (lit "00-46304") amountFixed dataInvoice dataDescription
        = OutOfFuel).
Proof.
  split; [intros; apply parseTLV_loop_negative_stuck|].
  split; [intros; apply parseTLV_loop_negative_step|].
  split.
  - unfold extract, parseTLV. rewrite parseTLV_loop_negative_stuck.
    reflexivity.
  - intros. unfold generate.
    change (includes (lit "00-46304") crcHeader) with true. cbv iota beta.
    change (slice (lit "00-46304") 0 (indexOf (lit "00-46304") crcHeader))
      with (lit "00-4").
    unfold parseTLV. rewrite parseTLV_loop_negative_stuck. reflexivity.
Qed.

(** *** Payloads without a minus sign are scanned to the end *)

Lemma readDigits_nonneg s : forall acc seen n,
  0 <= acc -> readDigits s acc seen = Some n -> 0 <= n.
Proof.
  induction s as [|c s IH]; intros acc seen n Hacc; cbn [readDigits].
  - destruct seen; [intros [= <-]; exact Hacc | discriminate].
  - unfold isDigit. destruct (Z.leb_spec 48 c); cbn [andb].
    + destruct (c <=? 57); [apply IH; lia|].
      destruct seen; [intros [= <-]; exact Hacc | discriminate].
    + destruct seen; [intros [= <-]; exact Hacc | discriminate].
Qed.

Lemma skipWhiteSpace_suffix s : skipWhiteSpace s `suffix_of` s.
Proof.
  induction s as [|c s IH]; cbn [skipWhiteSpace]; [reflexivity|].
  destruct (isWhiteSpace c); [apply suffix_cons_r, IH | reflexivity].
Qed.

Lemma parseInt_nonneg s n : 45 ∉ s -> parseInt s = Some n -> 0 <= n.
Proof.
  intros Hs. unfold parseInt.
  pose proof (skipWhiteSpace_suffix s) as [k Hk].
  destruct (skipWhiteSpace s) as [|c t]; [discriminate|].
  destruct (Z.eqb_spec c 45) as [->|_].
  - destruct Hs. rewrite Hk. apply elem_of_app. right. left.
  - destruct (c =? 43); apply readDigits_nonneg; lia.
Qed.

Lemma slice_sublist s a b : slice s a b `sublist_of` s.
Proof.
  unfold slice. etransitivity; [apply sublist_take | apply sublist_drop].
Qed.

Lemma slice_len_le s a b : 0 <= a -> a <= b -> len (slice s a b) <= b - a.
Proof.
  intros Ha Hab. unfold slice, len.
  destruct (Z.ltb_spec a 0); [lia|]. destruct (Z.ltb_spec b 0); [lia|].
  rewrite length_take. lia.
Qed.

(** With no minus sign in the payload every length is non-negative, every
    iteration moves at least 4 characters forward, and a fuel above the
    number of remaining characters is enough. *)
Lemma parseTLV_loop_terminates fuel : forall data recurseTags i result,
  45 ∉ data -> 0 <= i -> len data - i < Z.of_nat fuel -> (0 < fuel)%nat ->
  exists r, parseTLV_loop fuel data recurseTags i result = Ret r.
Proof.
  induction fuel as [|fuel IH]; intros data recurseTags i result Hd Hi Hf Hpos;
    [lia|].
  rewrite parseTLV_loop_S.
  destruct (Z.leb_spec (i + 4) (len data)); [|eauto].
  destruct (parseInt _) as [n|] eqn:En; [|eauto].
  assert (Hn : 0 <= n).
  { apply (parseInt_nonneg _ _
             (fun H => Hd (elem_of_sublist _ _ _ H (slice_sublist _ _ _))) En). }
  destruct (Z.gtb_spec (i + 4 + n) (len data)); [eauto|].
  assert (Hnext : forall r, exists r',
    parseTLV_loop fuel data recurseTags (i + (4 + n)) r = Ret r')
    by (intros r; apply IH; [assumption|lia..]).
  destruct (arrayIncludes _ _); [|apply Hnext].
  destruct (IH (slice data (i + 4) (i + 4 + n)) recurseTags 0 ∅) as [sub ->].
  - intros Hin. apply Hd.
    eapply elem_of_sublist; [exact Hin | apply slice_sublist].
  - lia.
  - pose proof (slice_len_le data (i + 4) (i + 4 + n)). lia.
  - lia.
  - apply Hnext.
Qed.

Lemma parseTLV_terminates data recurseTags :
  45 ∉ data -> exists r, parseTLV (S (length data)) data recurseTags = Ret r.
Proof.
  intros Hd. apply parseTLV_loop_terminates; unfold len; auto; lia.
Qed.

(** ** [generate] then [validate] *)

(** What [generate] returns: a serialized body, the header, and the
    checksum of both. *)
Lemma generate_shape fuel dataQris amountFixed dataInvoice dataDescription out :
  generate fuel dataQris amountFixed dataInvoice dataDescription = Ret out ->
  exists body,
    out = (body ++ crcHeader) ++ calculateCRC16 (body ++ crcHeader).
Proof.
  unfold generate. destruct (negb _); [discriminate|].
  destruct (parseTLV fuel _ _) as [t| |]; [|discriminate..].
  intros [= <-]. eexists. reflexivity.
Qed.

(** The payload is accepted when the header [generate] appends is the first
    ["6304"] of the payload. *)
Lemma validate_appended_crc body :
  firstOccurrence crcHeader
    ((body ++ crcHeader) ++ calculateCRC16 (body ++ crcHeader)) (length body) ->
  validate ((body ++ crcHeader) ++ calculateCRC16 (body ++ crcHeader)) = true.
Proof.
  intros Hfirst. rewrite (validate_at_first _ _ Hfirst).
  pose proof (calculateCRC16_length (body ++ crcHeader)) as Hlen.
  set (crc := calculateCRC16 (body ++ crcHeader)) in *.
  destruct (Nat.ltb_spec (length ((body ++ crcHeader) ++ crc)) (length body + 8))
    as [H|_].
  - rewrite !length_app, Hlen in H. cbn in H. lia.
  - apply bool_decide_eq_true.
    replace (length body + 4)%nat with (length (body ++ crcHeader))
      by (rewrite length_app; reflexivity).
    rewrite drop_app_length, (take_ge crc) by lia.
    rewrite <- (app_assoc body), take_app_length. reflexivity.
Qed.

Example generate_test_suite :
  generate 200 staticBase (toFixed2 5000) (lit "INV-002") (lit "Electricity")
  = Ret (lit "00020101021126560012ID.GPNQR01189360091123456789020215ID202325412393903054075000.0062260107INV-0020711Electricity6304948E")
  /\ validate (lit "00020101021126560012ID.GPNQR01189360091123456789020215ID202325412393903054075000.0062260107INV-0020711Electricity6304948E") = true.
Proof. split; vm_compute; reflexivity. Qed.

(** C1, at the base payload of the test suite and the amount 304.  The
    amount is serialized as the entry ["5406304.00"]: the length ["06"] and
    the value ["304.00"] spell ["6304"].  That is the first ["6304"] of the
    generated payload, at index 75; [validate] compares the characters
    [".006"] behind it with the checksum ["DE4C"] of the prefix and answers
    [false], although the payload ends with the header and its checksum
    ["89CE"]. *)
Theorem validate_rejects_generated_amount_304 :
  generate 200 staticBase (toFixed2 304) [] []
  = Ret (lit "00020101021126560012ID.GPNQR01189360091123456789020215ID20232541239390305406304.00630489CE")
  /\ validate (lit "00020101021126560012ID.GPNQR01189360091123456789020215ID20232541239390305406304.00630489CE") = false
  /\ indexOf (lit "00020101021126560012ID.GPNQR01189360091123456789020215ID20232541239390305406304.00630489CE") crcHeader = 75
  /\ calculateCRC16 (lit "00020101021126560012ID.GPNQR01189360091123456789020215ID20232541239390305406304.006304") = lit "89CE".
Proof. split; [|split; [|split]]; vm_compute; reflexivity. Qed.

(** The same with the digits in the amount itself, and with the shortest
    base. *)
Example validate_rejects_generated_amount_6304 :
  generate 200 staticBase (toFixed2 6304) [] []
  = Ret (lit "00020101021126560012ID.GPNQR01189360091123456789020215ID202325412393903054076304.0063045242")
  /\ validate (lit "00020101021126560012ID.GPNQR01189360091123456789020215ID202325412393903054076304.0063045242") = false.
Proof. split; vm_compute; reflexivity. Qed.

Example validate_rejects_generated_shortest :
  generate 1 crcHeader (toFixed2 304) [] [] = Ret (lit "5406304.0063042798")
  /\ validate (lit "5406304.0063042798") = false.
Proof. split; vm_compute; reflexivity. Qed.

(** ** [extract] *)

(** *** Labels *)

Lemma NoDup_snd_inj {A B} (l : list (A * B)) a1 a2 b :
  NoDup l.*2 -> (a1, b) ∈ l -> (a2, b) ∈ l -> a1 = a2.
Proof.
  induction l as [|[a' b'] l IH]; cbn [fmap list_fmap snd]; intros Hnd H1 H2.
  - apply elem_of_nil in H1. destruct H1.
  - apply NoDup_cons in Hnd as [Hnotin Hnd].
    assert (Hsnd : forall a, (a, b) ∈ l -> b ∈ l.*2).
    { intros a Ha. apply list_elem_of_fmap. exists (a, b). auto. }
    apply elem_of_cons in H1 as [E1|H1];
      apply elem_of_cons in H2 as [E2|H2]; simplify_eq; auto.
    + destruct Hnotin. eapply Hsnd, H2.
    + destruct Hnotin. eapply Hsnd, H1.
Qed.

Lemma labelOf_default table key :
  goodTable table ->
  labelOf (list_to_map table) key
  = default (lit "Tag " ++ key) ((list_to_map table : gmap jstr jstr) !! key).
Proof.
  intros [Hall _]. unfold labelOf.
  destruct (_ !! key) as [l|] eqn:E; [|reflexivity].
  apply elem_of_list_to_map_2, list_elem_of_In in E.
  rewrite forallb_forall in Hall. apply Hall in E. cbn [snd] in E.
  apply andb_true_iff in E as [-> _]. reflexivity.
Qed.

Lemma labelOf_inj table a b :
  goodTable table ->
  labelOf (list_to_map table) a = labelOf (list_to_map table) b -> a = b.
Proof.
  intros Hgood. rewrite !labelOf_default by exact Hgood.
  destruct Hgood as [Hall Hnd]. rewrite forallb_forall in Hall.
  assert (Hno : forall k l x,
    (list_to_map table : gmap jstr jstr) !! k = Some l -> l <> lit "Tag " ++ x).
  { intros k l x E ->.
    apply elem_of_list_to_map_2, list_elem_of_In, Hall in E. cbn [snd] in E.
    apply andb_true_iff in E as [_ E]. apply negb_true_iff in E.
    assert (startsWith (lit "Tag " ++ x) (lit "Tag ") = true)
      by (apply startsWith_prefix; exists x; reflexivity).
    congruence. }
  destruct (_ !! a) as [la|] eqn:Ea, (_ !! b) as [lb|] eqn:Eb;
    cbn [from_option id].
  - intros E. subst lb. apply elem_of_list_to_map_2 in Ea, Eb.
    eapply NoDup_snd_inj; eauto.
  - intros H. destruct (Hno _ _ _ Ea H).
  - intros H. symmetry in H. destruct (Hno _ _ _ Eb H).
  - apply app_inv_head.
Qed.

Lemma tagTable_good : goodTable tagTable.
Proof.
  split; [vm_compute; reflexivity|].
  apply (bool_decide_eq_true_1 _). vm_compute. reflexivity.
Qed.

Lemma subTagTable_good : goodTable subTagTable.
Proof.
  split; [vm_compute; reflexivity|].
  apply (bool_decide_eq_true_1 _). vm_compute. reflexivity.
Qed.

(** *** The relabelling loops *)

Section Relabel.
Variable f : jstr -> tlv -> gmap jstr tlv -> gmap jstr tlv.
Variable lab : jstr -> jstr.
Variable conv : tlv -> tlv.
Hypothesis f_insert : forall key val result,
  f key val result = <[lab key := conv val]> result.
Hypothesis lab_inj : forall a b, lab a = lab b -> a = b.

(** Since no two keys share a label, the object the loop builds holds the
    converted value of each key under its label, and nothing else. *)
Lemma relabel_loop raw :
  (forall key, map_fold f ∅ raw !! lab key = conv <$> raw !! key)
  /\ (forall label, is_Some (map_fold f ∅ raw !! label) ->
        exists key, label = lab key /\ is_Some (raw !! key)).
Proof.
  apply (map_fold_weak_ind (fun r m =>
    (forall key, r !! lab key = conv <$> m !! key)
    /\ (forall label, is_Some (r !! label) ->
          exists key, label = lab key /\ is_Some (m !! key)))).
  - split.
    + intros key. rewrite !lookup_empty. reflexivity.
    + intros label H. rewrite lookup_empty in H. destruct H; discriminate.
  - intros i x m r Hi [IH1 IH2]. rewrite f_insert. split.
    + intros key. destruct (decide (i = key)) as [->|Hne].
      * rewrite !lookup_insert_eq. reflexivity.
      * rewrite !lookup_insert_ne by (auto; intros H; apply lab_inj in H; auto).
        apply IH1.
    + intros label H. destruct (decide (lab i = label)) as [<-|Hne].
      * exists i. rewrite lookup_insert_eq. eauto.
      * rewrite lookup_insert_ne in H by exact Hne.
        destruct (IH2 _ H) as (key & -> & Hk). exists key. split; [reflexivity|].
        rewrite lookup_insert_ne; [exact Hk|]. intros ->. congruence.
Qed.
End Relabel.

Lemma relabelNested_lookup (val : gmap jstr tlv) :
  (forall subKey, relabelNested val !! labelOf subTagMap subKey = val !! subKey)
  /\ (forall label, is_Some (relabelNested val !! label) ->
        exists subKey, label = labelOf subTagMap subKey /\ is_Some (val !! subKey)).
Proof.
  destruct (relabel_loop
    (fun subKey subVal nested => <[labelOf subTagMap subKey := subVal]> nested)
    (labelOf subTagMap) id (fun _ _ _ => eq_refl)
    (fun a b => labelOf_inj subTagTable a b subTagTable_good) val) as [H1 H2].
  split; [|exact H2].
  intros subKey. unfold relabelNested. rewrite H1.
  destruct (val !! subKey); reflexivity.
Qed.

(** What [extract] stores for a value: a nested object is relabelled, a
    string is kept. *)
Lemma relabel_lookup (raw : gmap jstr tlv) :
  (forall key,
     relabel raw !! labelOf tagMap key
     = (fun val => match val with
                   | Obj m => Obj (relabelNested m)
                   | Str _ => val
                   end) <$> raw !! key)
  /\ (forall label, is_Some (relabel raw !! label) ->
        exists key, label = labelOf tagMap key /\ is_Some (raw !! key)).
Proof.
  apply (relabel_loop _ (labelOf tagMap)).
  - intros key [s|m] result; reflexivity.
  - intros a b. apply (labelOf_inj tagTable), tagTable_good.
Qed.

(** *** Which values are objects *)

Lemma parseTLV_loop_kinds fuel : forall data recurseTags i result r,
  parseTLV_loop fuel data recurseTags i result = Ret r ->
  (forall key val, result !! key = Some val -> (isObj val <-> key ∈ recurseTags)) ->
  forall key val, r !! key = Some val -> (isObj val <-> key ∈ recurseTags).
Proof.
  induction fuel as [|fuel IH]; intros data recurseTags i result r;
    [discriminate|].
  rewrite parseTLV_loop_S.
  destruct (i + 4 <=? len data); [|intros [= <-]; auto].
  destruct (parseInt _) as [n|]; [|intros [= <-]; auto].
  destruct (i + 4 + n >? len data); [intros [= <-]; auto|].
  unfold arrayIncludes. destruct (bool_decide_reflect (slice data i (i + 2) ∈ recurseTags)) as [Hin|Hin].
  - destruct (parseTLV_loop fuel (slice _ _ _) _ _ _) as [sub| |];
      [|discriminate..].
    intros Hr Hres. apply (IH _ _ _ _ _ Hr).
    intros key val. destruct (decide (slice data i (i + 2) = key)) as [<-|Hne].
    + rewrite lookup_insert_eq. intros [= <-]. cbn. tauto.
    + rewrite lookup_insert_ne by exact Hne. apply Hres.
  - intros Hr Hres. apply (IH _ _ _ _ _ Hr).
    intros key val. destruct (decide (slice data i (i + 2) = key)) as [<-|Hne].
    + rewrite lookup_insert_eq. intros [= <-]. cbn. tauto.
    + rewrite lookup_insert_ne by exact Hne. apply Hres.
Qed.

(** What [extract] does when the scan ends.  [extract] never throws.
    Whenever the scan of the payload with ["62"] as only container tag ends,
    which it does for every payload without a minus sign, [extract] returns
    an object in which: the entry
    of tag ["63"] is absent; every other top-level tag is stored under its
    label, the name of the table or ["Tag " + id] for an unknown id; a string
    value is kept; an object value occurs under tag ["62"] only and its
    entries are stored under the labels of the sub-table, ["Tag " + id] for
    an unknown id; and no other label is present. *)
Theorem extract_relabels (fuel : nat) (qrString : jstr) :
  (forall e, extract fuel qrString <> Throw e)
  /\ (45 ∉ qrString ->
      exists result, extract (S (length qrString)) qrString = Ret result)
  /\ (forall raw, parseTLV fuel qrString [lit "62"] = Ret raw ->
      exists result,
        extract fuel qrString = Ret result
        /\ result !! labelOf tagMap (lit "63") = None
        /\ (forall key, key <> lit "63" ->
              match raw !! key with
              | None => result !! labelOf tagMap key = None
              | Some (Str s) => result !! labelOf tagMap key = Some (Str s)
              | Some (Obj m) =>
                  key = lit "62"
                  /\ exists nested,
                       result !! labelOf tagMap key = Some (Obj nested)
                       /\ (forall subKey,
                             nested !! labelOf subTagMap subKey = m !! subKey)
                       /\ (forall label, is_Some (nested !! label) ->
                             exists subKey,
                               label = labelOf subTagMap subKey
                               /\ is_Some (m !! subKey))
              end)
        /\ (forall label, is_Some (result !! label) ->
              exists key,
                label = labelOf tagMap key /\ key <> lit "63"
                /\ is_Some (raw !! key)))
  /\ (forall key,
        labelOf tagMap key = default (lit "Tag " ++ key) (tagMap !! key)
        /\ labelOf subTagMap key
           = default (lit "Tag " ++ key) (subTagMap !! key)).
Proof.
  split; [intros e; apply extract_no_throw|].
  split.
  { intros Hd. unfold extract.
    destruct (parseTLV_terminates qrString [lit "62"] Hd) as [r ->]. eauto. }
  split.
  2:{ intros key. split; apply labelOf_default;
        [apply tagTable_good | apply subTagTable_good]. }
  intros raw Hraw. unfold extract. rewrite Hraw. eexists. split; [reflexivity|].
  destruct (relabel_lookup (delete (lit "63") raw)) as [H1 H2].
  split; [rewrite H1, lookup_delete_eq; reflexivity|].
  split.
  - intros key Hkey. rewrite H1, lookup_delete_ne by congruence.
    destruct (raw !! key) as [[s|m]|] eqn:E; try reflexivity.
    split.
    + assert (Hk : key ∈ [lit "62"]).
      { apply (parseTLV_loop_kinds _ _ _ _ _ _ Hraw
                 (fun k v H => ltac:(rewrite lookup_empty in H; discriminate))
                 key (Obj m) E). exact I. }
      apply list_elem_of_singleton in Hk. exact Hk.
    + exists (relabelNested m). split; [reflexivity|].
      apply relabelNested_lookup.
  - intros label Hl. destruct (H2 _ Hl) as (key & -> & Hk).
    exists key. split; [reflexivity|].
    destruct (decide (key = lit "63")) as [->|Hne].
    + rewrite lookup_delete_eq in Hk. destruct Hk; discriminate.
    + rewrite lookup_delete_ne in Hk by congruence. auto.
Qed.

Lemma extract_relabels_witness :
  (45 ∉ lit "00020162070103ABC6304FFFF")
  /\ exists result,
       extract (S (length (lit "00020162070103ABC6304FFFF")))
         (lit "00020162070103ABC6304FFFF") = Ret result.
Proof.
  assert (H : 45 ∉ (lit "00020162070103ABC6304FFFF")).
  { apply (bool_decide_eq_true_1 _). vm_compute. reflexivity. }
  split; [exact H|].
  exact (proj1 (proj2 (extract_relabels 0 (lit "00020162070103ABC6304FFFF"))) H).
Defined.

(** A container entry whose value holds a negative length field. *)
Lemma parseTLV_loop_nested_negative_stuck fuel result :
  parseTLV_loop fuel (lit "620400-4") [lit "62"] 0 result = OutOfFuel.
Proof.
  destruct fuel as [|fuel]; [reflexivity|].
  rewrite parseTLV_loop_S.
  change (0 + 4 <=? len (lit "620400-4")) with true. cbv iota.
  change (parseInt (slice (lit "620400-4") (0 + 2) (0 + 4))) with (Some 4).
  cbv iota beta.
  change (0 + 4 + 4 >? len (lit "620400-4")) with false. cbv iota.
  change (arrayIncludes [lit "62"] (slice (lit "620400-4") 0 (0 + 2)))
    with true.
  cbv iota.
  change (slice (lit "620400-4") (0 + 4) (0 + 4 + 4)) with (lit "00-4").
  rewrite parseTLV_loop_negative_stuck. reflexivity.
Qed.

(** C9, at the payloads ["00-4"] and ["620400-4"].  [extract] does not
    return on them, whatever the fuel: the length field ["-4"], at the top
    level or inside the value of the container tag ["62"], is read as [-4],
    the guard of the loop lets it pass, and the position stays where it was.
    No labelled object is produced, while the claim promises one for every
    payload.  (It never throws, and it relabels as the claim says whenever
    the scan ends: [extract_relabels] above.) *)
Theorem extract_negative_length_never_returns (fuel : nat) :
  extract fuel (lit "00-4") = OutOfFuel
  /\ extract fuel (lit "620400-4") = OutOfFuel.
Proof.
  unfold extract, parseTLV.
  rewrite parseTLV_loop_negative_stuck, parseTLV_loop_nested_negative_stuck.
  split; reflexivity.
Qed.

Example extract_nested :
  extract 26 (lit "00020162070103ABC6304FFFF")
  = Ret {[ lit "Payload Format Indicator" := Str (lit "01");
           lit "Additional Data"
             := Obj {[ lit "Invoice Number" := Str (lit "ABC") ]} ]}.
Proof. vm_compute. reflexivity. Qed.

(** The example of the test suite: the payload generated for the amount
    15000, the invoice ["INV-004"] and the description ["Shopping"]. *)
Example extract_test_suite :
  extract 200 (lit "00020101021126560012ID.GPNQR01189360091123456789020215ID2023254123939030540815000.0062230107INV-0040708Shopping6304B632")
  = Ret {[ lit "Payload Format Indicator" := Str (lit "01");
           lit "Point of Initiation Method" := Str (lit "11");
           lit "Merchant Account Info (26)"
             := Str (lit "0012ID.GPNQR01189360091123456789020215ID2023254123939030");
           lit "Transaction Amount" := Str (lit "15000.00");
           lit "Additional Data"
             := Obj {[ lit "Invoice Number" := Str (lit "INV-004");
                       lit "Description" := Str (lit "Shopping") ]} ]}.
Proof. vm_compute. reflexivity. Qed.

Example tagMap_lookup :
  tagMap !! lit "26" = Some (lit "Merchant Account Info (26)")
  /\ tagMap !! lit "51" = Some (lit "Merchant Account Info (51)")
  /\ labelOf tagMap (lit "54") = lit "Transaction Amount"
  /\ labelOf tagMap (lit "99") = lit "Tag 99"
  /\ labelOf subTagMap (lit "07") = lit "Description"
  /\ labelOf subTagMap (lit "05") = lit "Tag 05".
Proof. repeat split; vm_compute; reflexivity. Qed.

(** * Further properties of the code *)

(** ** The checksum of characters above 255 *)

Lemma land_ones_lxor a b n :
  0 <= n -> Z.land (Z.lxor a b) (Z.ones n)
            = Z.land (Z.lxor (Z.land a (Z.ones n)) b) (Z.ones n).
Proof.
  intros Hn. apply Z.bits_inj'. intros i Hi.
  rewrite !Z.land_spec, !Z.lxor_spec, Z.land_spec.
  destruct (Z_lt_le_dec i n).
  - rewrite Z.ones_spec_low by lia. rewrite !andb_true_r. reflexivity.
  - rewrite Z.ones_spec_high by lia. rewrite !andb_false_r. reflexivity.
Qed.

Lemma land_ones_shiftl1 a :
  Z.land (Z.shiftl a 1) (Z.ones 16)
  = Z.land (Z.shiftl (Z.land a (Z.ones 16)) 1) (Z.ones 16).
Proof.
  apply Z.bits_inj'. intros i Hi.
  rewrite !Z.land_spec, !Z.shiftl_spec, Z.land_spec by lia.
  destruct (Z_lt_le_dec i 16).
  - destruct (Z.eq_dec i 0) as [->|].
    + rewrite !Z.testbit_neg_r by lia. reflexivity.
    + rewrite (Z.ones_spec_low 16 (i - 1)) by lia.
      rewrite andb_true_r. reflexivity.
  - rewrite Z.ones_spec_high by lia. rewrite !andb_false_r. reflexivity.
Qed.

(** A round sees the low 16 bits of what it is given: the bits above are
    shifted out by the mask. *)
Lemma crc_round_wide x :
  0 <= x < 2 ^ 24 -> crc_round x = CcittFalse.round (x mod 65536).
Proof.
  intros Hx. unfold crc_round, CcittFalse.round, and32, xor32, shl32.
  change (1 mod 32) with 1.
  rewrite (toInt32_small x), (toInt32_small 0x8000),
    (toInt32_small 0xFFFF), (toInt32_small 0x1021) by lia.
  assert (Hs : Z.shiftl x 1 = x * 2)
    by (rewrite Z.shiftl_mul_pow2 by lia; reflexivity).
  rewrite !(toInt32_small (Z.shiftl x 1)) by lia.
  assert (Hb : 0 <= Z.land x 0x8000 < 65536)
    by (rewrite land_bit15; destruct (Z.testbit x 15); lia).
  rewrite (toInt32_small (Z.land x 0x8000)) by lia.
  rewrite land_bit15_zero.
  assert (Hl : 0 <= Z.lxor (Z.shiftl x 1) 0x1021 < 2 ^ 25)
    by (apply lxor_bound; lia).
  assert (Hbit : Z.testbit (x mod 65536) 15 = Z.testbit x 15)
    by (change 65536 with (2 ^ 16); apply Z.mod_pow2_bits_low; lia).
  rewrite Hbit. change 0xFFFF with (Z.ones 16).
  assert (Hm : x mod 65536 = Z.land x (Z.ones 16))
    by (rewrite Z.land_ones by lia; reflexivity).
  rewrite Hm.
  destruct (Z.testbit x 15); cbn [negb]; cbv iota.
  - rewrite !(toInt32_small (Z.lxor (Z.shiftl x 1) 0x1021)) by lia.
    rewrite toInt32_small.
    + rewrite land_ones_lxor by lia.
      rewrite land_ones_shiftl1, <- land_ones_lxor by lia. reflexivity.
    + rewrite Z.land_ones by lia.
      pose proof (Z.mod_pos_bound (Z.lxor (Z.shiftl x 1) 0x1021) (2 ^ 16)); lia.
  - rewrite !(toInt32_small (Z.shiftl x 1)) by lia.
    rewrite toInt32_small.
    + apply land_ones_shiftl1.
    + rewrite Z.land_ones by lia.
      pose proof (Z.mod_pos_bound (Z.shiftl x 1) (2 ^ 16)); lia.
Qed.

Lemma lxor_high_byte crc c :
  0 <= crc < 65536 -> 0 <= c ->
  Z.lxor crc (Z.shiftl c 8) mod 65536 = Z.lxor crc (Z.shiftl (c mod 256) 8).
Proof.
  intros Hc Hch. change 65536 with (2 ^ 16). change 256 with (2 ^ 8).
  apply Z.bits_inj'. intros i Hi.
  destruct (Z_lt_le_dec i 16).
  - rewrite Z.mod_pow2_bits_low by lia.
    rewrite !Z.lxor_spec, !Z.shiftl_spec by lia. f_equal.
    destruct (Z_lt_le_dec i 8).
    + rewrite !Z.testbit_neg_r by lia. reflexivity.
    + rewrite Z.mod_pow2_bits_low by lia. reflexivity.
  - rewrite Z.mod_pow2_bits_high by lia.
    rewrite Z.lxor_spec, Z.shiftl_spec by lia.
    rewrite Z.mod_pow2_bits_high by lia.
    rewrite <- (Z.mod_small crc (2 ^ 16)) by lia.
    rewrite Z.mod_pow2_bits_high by lia. reflexivity.
Qed.

Lemma crc_char_wide crc c :
  0 <= crc < 65536 -> 0 <= c < 65536 ->
  crc_char crc c = crc_char crc (c mod 256).
Proof.
  intros Hc Hch.
  pose proof (Z.mod_pos_bound c 256 ltac:(lia)) as Hlow.
  rewrite (crc_char_refines crc (c mod 256)) by lia.
  unfold crc_char, CcittFalse.feed, xor32, shl32.
  change (8 mod 32) with 8.
  rewrite (toInt32_small c), (toInt32_small crc) by lia.
  assert (Hs : Z.shiftl c 8 = c * 256)
    by (rewrite Z.shiftl_mul_pow2 by lia; reflexivity).
  rewrite !(toInt32_small (Z.shiftl c 8)) by lia.
  pose proof (lxor_bound 24 crc (Z.shiftl c 8) ltac:(lia) ltac:(lia) ltac:(lia)).
  rewrite toInt32_small by lia.
  change 8%nat with (S 7).
  rewrite (Nat.iter_succ_r 7 crc_round), (Nat.iter_succ_r 7 CcittFalse.round).
  rewrite crc_round_wide by lia.
  rewrite lxor_high_byte by lia.
  assert (Hs' : Z.shiftl (c mod 256) 8 = c mod 256 * 256)
    by (rewrite Z.shiftl_mul_pow2 by lia; reflexivity).
  pose proof (lxor_bound 16 crc (Z.shiftl (c mod 256) 8)
                ltac:(lia) ltac:(lia) ltac:(lia)) as Hr.
  pose proof (iter_round_refines 7 _ (crc_round_range (Z.lxor crc (Z.shiftl (c mod 256) 8))))
    as [E _].
  rewrite <- crc_round_refines by lia. exact E.
Qed.

(** X1.  A character above 255 counts for its low byte only: on every
    string of 16-bit code units [calculateCRC16] gives the checksum of the
    string of the low bytes, which is its CRC-16/CCITT-FALSE. *)
Theorem calculateCRC16_low_bytes (data : jstr) :
  wf_str data ->
  calculateCRC16 data = calculateCRC16 (map (fun c => c mod 256) data)
  /\ calculateCRC16 data = CcittFalse.checksum (map (fun c => c mod 256) data).
Proof.
  intros Hd.
  assert (E : forall crc, 0 <= crc < 65536 ->
    fold_left crc_char data crc
    = fold_left crc_char (map (fun c => c mod 256) data) crc).
  { induction Hd as [|c data Hc Hd IH]; intros crc Hcrc; [reflexivity|].
    cbn [map]. rewrite !fold_left_cons, <- crc_char_wide by lia.
    apply IH, crc_char_range. }
  assert (E' : calculateCRC16 data
               = calculateCRC16 (map (fun c => c mod 256) data)).
  { rewrite !calculateCRC16_hex4, E by lia. reflexivity. }
  split; [exact E'|]. rewrite E'.
  rewrite calculateCRC16_hex4.
  unfold CcittFalse.checksum, CcittFalse.register.
  rewrite crc_register_refines; [reflexivity | lia |].
  apply Forall_fmap, Forall_forall. intros c _. cbn.
  pose proof (Z.mod_pos_bound c 256 ltac:(lia)). lia.
Qed.

Lemma calculateCRC16_low_bytes_witness :
  wf_str [0x20AC; 0x3042]
  /\ calculateCRC16 [0x20AC; 0x3042] = calculateCRC16 [0xAC; 0x42].
Proof.
  assert (H : wf_str [0x20AC; 0x3042]).
  { repeat (apply Forall_cons_2; [lia|]). apply Forall_nil_2. }
  split; [exact H|].
  exact (proj1 (calculateCRC16_low_bytes _ H)).
Defined.

(** ** What the scanner stores *)

Lemma slice_two_le s a : (length (slice s a (a + 2)) <= 2)%nat.
Proof.
  unfold slice, len. rewrite length_take.
  destruct (Z.ltb_spec a 0), (Z.ltb_spec (a + 2) 0); lia.
Qed.

Lemma slice_exact s (a n : Z) :
  0 <= a -> 0 <= n -> a + n <= len s ->
  slice s a (a + n) = take (Z.to_nat n) (drop (Z.to_nat a) s)
  /\ length (slice s a (a + n)) = Z.to_nat n.
Proof.
  intros Ha Hn Hlen. unfold len in Hlen.
  assert (E : slice s a (a + n) = take (Z.to_nat n) (drop (Z.to_nat a) s)).
  { replace a with (Z.of_nat (Z.to_nat a)) at 1 2 by lia.
    replace (Z.of_nat (Z.to_nat a) + n)
      with (Z.of_nat (Z.to_nat a + Z.to_nat n)) by lia.
    rewrite slice_inside by lia. f_equal. lia. }
  split; [exact E|]. rewrite E, length_take, length_drop. lia.
Qed.

Lemma readDigits_upper s : forall acc seen n,
  0 <= acc -> readDigits s acc seen = Some n ->
  n < (acc + 1) * 10 ^ Z.of_nat (length s).
Proof.
  induction s as [|c s IH]; intros acc seen n Hacc; cbn [readDigits length].
  - destruct seen; [intros [= <-]; cbn; lia | discriminate].
  - assert (Hp : 0 < 10 ^ Z.of_nat (length s)) by (apply Z.pow_pos_nonneg; lia).
    replace (Z.of_nat (S (length s))) with (Z.succ (Z.of_nat (length s))) by lia.
    rewrite Z.pow_succ_r by lia.
    unfold isDigit.
    destruct (Z.leb_spec 48 c), (Z.leb_spec c 57); cbn [andb];
      try (destruct seen; [intros [= <-]; nia | discriminate]).
    intros Hr. apply IH in Hr; [nia | lia].
Qed.

Lemma parseInt_upper s n :
  parseInt s = Some n -> n < 10 ^ Z.of_nat (length s).
Proof.
  unfold parseInt.
  pose proof (skipWhiteSpace_suffix s) as [k Hk].
  destruct (skipWhiteSpace s) as [|c t] eqn:E; [discriminate|].
  assert (Hlen : (S (length t) <= length s)%nat).
  { rewrite Hk, length_app. cbn. lia. }
  assert (Hpow : forall m : nat, (m <= length s)%nat ->
    10 ^ Z.of_nat m <= 10 ^ Z.of_nat (length s))
    by (intros; apply Z.pow_le_mono_r; lia).
  destruct (c =? 45).
  - destruct (readDigits t 0 false) as [m|] eqn:Em; [|discriminate].
    intros [= <-]. apply readDigits_nonneg in Em; [|lia].
    pose proof (Z.pow_pos_nonneg 10 (Z.of_nat (length s))). lia.
  - assert (Ht : forall u m, (length u <= length s)%nat ->
      readDigits u 0 false = Some m -> m < 10 ^ Z.of_nat (length s)).
    { intros u m Hu Hm. apply readDigits_upper in Hm; [|lia].
      specialize (Hpow (length u) Hu). lia. }
    destruct (c =? 43); apply Ht; cbn [length]; lia.
Qed.

(** Every entry of the result comes from a header at some position [j] of
    the data.  Without a minus sign the positions only grow. *)
Lemma parseTLV_loop_provenance fuel : forall data recurseTags i result r,
  parseTLV_loop fuel data recurseTags i result = Ret r ->
  forall key val, r !! key = Some val ->
  result !! key = Some val
  \/ exists j n,
       j + 4 <= len data
       /\ parseInt (slice data (j + 2) (j + 4)) = Some n
       /\ j + 4 + n <= len data
       /\ key = slice data j (j + 2)
       /\ (val = Str (slice data (j + 4) (j + 4 + n)) \/ isObj val)
       /\ (45 ∉ data -> 0 <= i -> 0 <= j /\ 0 <= n).
Proof.
  induction fuel as [|fuel IH]; intros data recurseTags i result r;
    [discriminate|].
  rewrite parseTLV_loop_S.
  destruct (Z.leb_spec (i + 4) (len data)); [|intros [= <-]; auto].
  destruct (parseInt _) as [n|] eqn:En; [|intros [= <-]; auto].
  destruct (Z.gtb_spec (i + 4 + n) (len data)); [intros [= <-]; auto|].
  assert (Hn : 45 ∉ data -> 0 <= n).
  { intros Hd. apply (parseInt_nonneg _ _
      (fun H => Hd (elem_of_sublist _ _ _ H (slice_sublist _ _ _))) En). }
  assert (Hstep : forall v,
    (v = Str (slice data (i + 4) (i + 4 + n)) \/ isObj v) ->
    parseTLV_loop fuel data recurseTags (i + (4 + n))
      (<[slice data i (i + 2) := v]> result) = Ret r ->
    forall key val, r !! key = Some val ->
    result !! key = Some val
    \/ exists j n0,
         j + 4 <= len data
         /\ parseInt (slice data (j + 2) (j + 4)) = Some n0
         /\ j + 4 + n0 <= len data
         /\ key = slice data j (j + 2)
         /\ (val = Str (slice data (j + 4) (j + 4 + n0)) \/ isObj val)
         /\ (45 ∉ data -> 0 <= i -> 0 <= j /\ 0 <= n0)).
  { intros v Hv Hr key val Hkv.
    destruct (IH _ _ _ _ _ Hr key val Hkv) as [Hin|(j & n0 & H1 & H2 & H3 & H4 & H5 & H6)].
    - destruct (decide (slice data i (i + 2) = key)) as [<-|Hne].
      + rewrite lookup_insert_eq in Hin. injection Hin as <-.
        right. exists i, n.
        refine (conj _ (conj En (conj _ (conj eq_refl (conj Hv _))))); try lia.
        intros Hd Hi. split; [lia | auto].
      + rewrite lookup_insert_ne in Hin by exact Hne. left. exact Hin.
    - right. exists j, n0.
      refine (conj H1 (conj H2 (conj H3 (conj H4 (conj H5 _))))).
      intros Hd Hi. specialize (Hn Hd). apply H6; [exact Hd | lia]. }
  destruct (arrayIncludes _ _).
  - destruct (parseTLV_loop fuel (slice _ _ _) _ _ _) as [sub| |];
      [|discriminate..].
    apply (Hstep (Obj sub)). right. exact I.
  - apply Hstep. left. reflexivity.
Qed.

(** X2.  Whatever the input, a tag id stored by [parseTLV] has at most 2
    characters (so the lookups of [extract] in its tables never meet an
    inherited property name). *)
Theorem parseTLV_keys_at_most_2 (fuel : nat) (data : jstr)
    (recurseTags : list jstr) (r : gmap jstr tlv) (key : jstr) :
  parseTLV fuel data recurseTags = Ret r ->
  is_Some (r !! key) -> (length key <= 2)%nat.
Proof.
  intros Hr [val Hk].
  destruct (parseTLV_loop_provenance _ _ _ _ _ _ Hr key val Hk)
    as [H|(j & n & _ & _ & _ & -> & _)].
  - rewrite lookup_empty in H. discriminate.
  - apply slice_two_le.
Qed.

Lemma parseTLV_keys_at_most_2_witness :
  parseTLV 3 (lit "00-1") [] = Ret {[ lit "00" := Str [] ]}
  /\ is_Some (({[ lit "00" := Str [] ]} : gmap jstr tlv) !! lit "00")
  /\ (length (lit "00") <= 2)%nat.
Proof.
  assert (H1 : parseTLV 3 (lit "00-1") [] = Ret {[ lit "00" := Str [] ]})
    by (vm_compute; reflexivity).
  assert (H2 : is_Some (({[ lit "00" := Str [] ]} : gmap jstr tlv) !! lit "00"))
    by (rewrite lookup_singleton_eq; eauto).
  split; [exact H1|]. split; [exact H2|].
  exact (parseTLV_keys_at_most_2 _ _ _ _ _ H1 H2).
Defined.

(** Every entry of the result is read at a position the scan reaches, with
    the length the length field spells; under a container tag the value is
    what the scan of the characters of the value returns. *)
Lemma parseTLV_loop_scanned fuel : forall data recurseTags i result r,
  scanPosition data i ->
  parseTLV_loop fuel data recurseTags i result = Ret r ->
  forall key val, r !! key = Some val ->
  result !! key = Some val
  \/ exists j n,
       scanPosition data j
       /\ (45 ∉ data -> 0 <= i -> 0 <= j /\ 0 <= n)
       /\ j + 4 <= len data
       /\ parseInt (slice data (j + 2) (j + 4)) = Some n
       /\ j + 4 + n <= len data
       /\ key = slice data j (j + 2)
       /\ (((key ∉ recurseTags) /\ val = Str (slice data (j + 4) (j + 4 + n)))
           \/ ((key ∈ recurseTags)
               /\ exists sub f,
                    val = Obj sub
                    /\ parseTLV f (slice data (j + 4) (j + 4 + n)) recurseTags
                       = Ret sub)).
Proof.
  induction fuel as [|fuel IH]; intros data recurseTags i result r Hpos;
    [discriminate|].
  rewrite parseTLV_loop_S.
  destruct (Z.leb_spec (i + 4) (len data)) as [Hi4|]; [|intros [= <-]; auto].
  destruct (parseInt _) as [n|] eqn:En; [|intros [= <-]; auto].
  destruct (Z.gtb_spec (i + 4 + n) (len data)) as [|Hin]; [intros [= <-]; auto|].
  assert (Hn : 45 ∉ data -> 0 <= n).
  { intros Hd. apply (parseInt_nonneg _ _
      (fun H => Hd (elem_of_sublist _ _ _ H (slice_sublist _ _ _))) En). }
  pose proof (scan_next data i n Hpos Hi4 En Hin) as Hpos'.
  set (id := slice data i (i + 2)).
  set (value := slice data (i + 4) (i + 4 + n)).
  intros Hr key val Hkv.
  assert (Hstep : forall v,
    (((id ∉ recurseTags) /\ v = Str value)
     \/ ((id ∈ recurseTags)
         /\ exists sub f, v = Obj sub /\ parseTLV f value recurseTags = Ret sub)) ->
    parseTLV_loop fuel data recurseTags (i + (4 + n)) (<[id := v]> result)
    = Ret r ->
    result !! key = Some val
    \/ exists j n0,
         scanPosition data j
         /\ (45 ∉ data -> 0 <= i -> 0 <= j /\ 0 <= n0)
         /\ j + 4 <= len data
         /\ parseInt (slice data (j + 2) (j + 4)) = Some n0
         /\ j + 4 + n0 <= len data
         /\ key = slice data j (j + 2)
         /\ (((key ∉ recurseTags)
              /\ val = Str (slice data (j + 4) (j + 4 + n0)))
             \/ ((key ∈ recurseTags)
                 /\ exists sub f,
                      val = Obj sub
                      /\ parseTLV f (slice data (j + 4) (j + 4 + n0))
                           recurseTags = Ret sub))).
  { intros v Hv Hloop.
    destruct (IH _ _ _ _ _ Hpos' Hloop key val Hkv)
      as [Hin'|(j & n0 & H0 & H1 & H2 & H3 & H4 & H5 & H6)].
    - destruct (decide (id = key)) as [<-|Hne].
      + rewrite lookup_insert_eq in Hin'. injection Hin' as <-.
        right. exists i, n.
        refine (conj Hpos (conj _ (conj Hi4 (conj En (conj Hin
                  (conj eq_refl Hv)))))).
        intros Hd Hi. split; [lia | auto].
      + rewrite lookup_insert_ne in Hin' by exact Hne. left. exact Hin'.
    - right. exists j, n0.
      refine (conj H0 (conj _ (conj H2 (conj H3 (conj H4 (conj H5 H6)))))).
      intros Hd Hi. specialize (Hn Hd). apply H1; [exact Hd | lia]. }
  revert Hr. unfold arrayIncludes.
  destruct (bool_decide_reflect (id ∈ recurseTags)) as [Htag|Htag].
  - destruct (parseTLV_loop fuel value recurseTags 0 ∅) as [sub| |] eqn:Esub;
      [|discriminate..].
    apply Hstep. right. split; [exact Htag|]. exists sub, fuel. auto.
  - apply Hstep. left. auto.
Qed.

(** X3.  On a payload without a minus sign every entry of the result of
    [parseTLV] is read at a position [j] that the scan reaches: its tag id
    is the 2 characters at [j]; the 2 characters behind them are read by
    [parseInt] as its length [n], at most 99; header and value lie inside
    the payload; under an id that is not a container tag the value is
    exactly the [n] characters behind the header, and under a container tag
    it is the object [parseTLV] returns for those [n] characters. *)
Theorem parseTLV_entries_inside (fuel : nat) (data : jstr)
    (recurseTags : list jstr) (r : gmap jstr tlv) (key : jstr) (val : tlv) :
  45 ∉ data ->
  parseTLV fuel data recurseTags = Ret r ->
  r !! key = Some val ->
  exists j n : nat,
    scanPosition data (Z.of_nat j)
    /\ (j + 4 + n <= length data)%nat
    /\ key = take 2 (drop j data) /\ length key = 2%nat
    /\ parseInt (take 2 (drop (j + 2) data)) = Some (Z.of_nat n)
    /\ (n <= 99)%nat
    /\ (((key ∉ recurseTags)
         /\ val = Str (take n (drop (j + 4) data))
         /\ length (take n (drop (j + 4) data)) = n)
        \/ ((key ∈ recurseTags)
            /\ exists sub f,
                 val = Obj sub
                 /\ parseTLV f (take n (drop (j + 4) data)) recurseTags
                    = Ret sub)).
Proof.
  intros Hd Hr Hk.
  destruct (parseTLV_loop_scanned _ _ _ _ _ _ (scan_start data) Hr key val Hk)
    as [H|(j & n & Hpos & Hnn & H1 & H2 & H3 & -> & H5)].
  { rewrite lookup_empty in H. discriminate. }
  destruct (Hnn Hd ltac:(lia)) as [Hj Hn].
  pose proof (parseInt_upper _ _ H2) as Hup.
  pose proof (slice_two_le data (j + 2)) as Hf.
  replace (j + 2 + 2) with (j + 4) in Hf by lia.
  assert (Hn99 : n < 100).
  { eapply Z.lt_le_trans; [exact Hup|].
    change 100 with (10 ^ Z.of_nat 2). apply Z.pow_le_mono_r; lia. }
  destruct (slice_exact data j 2 ltac:(lia) ltac:(lia) ltac:(lia)) as [Ek Lk].
  destruct (slice_exact data (j + 2) 2 ltac:(lia) ltac:(lia) ltac:(lia))
    as [Ef _].
  replace (j + 2 + 2) with (j + 4) in Ef by lia.
  change (Z.to_nat 2) with 2%nat in Ef.
  destruct (slice_exact data (j + 4) n ltac:(lia) ltac:(lia) ltac:(lia))
    as [Ev Lv].
  exists (Z.to_nat j), (Z.to_nat n). unfold len in *.
  rewrite !Z2Nat.id by lia.
  split; [exact Hpos|]. split; [lia|].
  split; [exact Ek|]. split; [exact Lk|].
  replace (Z.to_nat j + 2)%nat with (Z.to_nat (j + 2)) by lia.
  replace (Z.to_nat j + 4)%nat with (Z.to_nat (j + 4)) by lia.
  split; [rewrite <- Ef; exact H2|]. split; [lia|].
  rewrite <- Ev.
  destruct H5 as [[Htag ->]|(Htag & sub & f & -> & Hsub)].
  - left. split; [exact Htag|]. split; [reflexivity | exact Lv].
  - right. split; [exact Htag|]. exists sub, f. split; [reflexivity | exact Hsub].
Qed.

Lemma parseTLV_entries_inside_witness :
  (45 ∉ lit "000201")
  /\ parseTLV 3 (lit "000201") [] = Ret {[ lit "00" := Str (lit "01") ]}
  /\ exists j n : nat,
       scanPosition (lit "000201") (Z.of_nat j)
       /\ (j + 4 + n <= length (lit "000201"))%nat
       /\ lit "00" = take 2 (drop j (lit "000201"))
       /\ length (lit "00") = 2%nat
       /\ parseInt (take 2 (drop (j + 2) (lit "000201"))) = Some (Z.of_nat n)
       /\ (n <= 99)%nat
       /\ (((lit "00" ∉ @nil jstr)
            /\ Str (lit "01") = Str (take n (drop (j + 4) (lit "000201")))
            /\ length (take n (drop (j + 4) (lit "000201"))) = n)
           \/ ((lit "00" ∈ @nil jstr)
               /\ exists sub f,
                    Str (lit "01") = Obj sub
                    /\ parseTLV f (take n (drop (j + 4) (lit "000201"))) []
                       = Ret sub)).
Proof.
  assert (H0 : 45 ∉ lit "000201")
    by (apply (bool_decide_eq_true_1 _); vm_compute; reflexivity).
  assert (H1 : parseTLV 3 (lit "000201") [] = Ret {[ lit "00" := Str (lit "01") ]})
    by (vm_compute; reflexivity).
  split; [exact H0|]. split; [exact H1|].
  apply (parseTLV_entries_inside _ _ _ _ _ _ H0 H1).
  apply lookup_singleton_eq.
Defined.

(** X4.  On a payload without a minus sign the loop ends within as many
    iterations as the payload has characters: [parseTLV] returns with any
    fuel above the length, and so does [generate] when the payload holds the
    header ["6304"]. *)
Theorem minus_free_calls_return (fuel : nat) (data : jstr) :
  45 ∉ data -> (length data < fuel)%nat ->
  (forall recurseTags, exists r, parseTLV fuel data recurseTags = Ret r)
  /\ (forall amountFixed dataInvoice dataDescription,
        (exists i, occursAt crcHeader data i) ->
        exists out,
          generate fuel data amountFixed dataInvoice dataDescription = Ret out).
Proof.
  intros Hd Hf. split.
  - intros recurseTags.
    apply parseTLV_loop_terminates; unfold len; auto; lia.
  - intros amountFixed dataInvoice dataDescription Hocc.
    apply includes_spec in Hocc. unfold generate. rewrite Hocc. cbn [negb].
    destruct (parseTLV_loop_terminates fuel
                (slice data 0 (indexOf data crcHeader)) [] 0 ∅) as [t Ht].
    + intros Hin. apply Hd.
      eapply elem_of_sublist; [exact Hin | apply slice_sublist].
    + lia.
    + pose proof (sublist_length _ _ (slice_sublist data 0 (indexOf data crcHeader))).
      unfold len. lia.
    + lia.
    + unfold parseTLV. rewrite Ht. eauto.
Qed.

Lemma minus_free_calls_return_witness :
  (45 ∉ staticBase) /\ (length staticBase < 200)%nat
  /\ exists out, generate 200 staticBase (toFixed2 5000) [] [] = Ret out.
Proof.
  assert (H0 : 45 ∉ staticBase)
    by (apply (bool_decide_eq_true_1 _); vm_compute; reflexivity).
  assert (H1 : (length staticBase < 200)%nat) by (vm_compute; lia).
  split; [exact H0|]. split; [exact H1|].
  apply (proj2 (minus_free_calls_return 200 staticBase H0 H1)).
  exists 145%nat. apply occursAt_dec. vm_compute. reflexivity.
Defined.

(** X5.  In the result of [parseTLV] a value is a nested object exactly
    when its tag id is one of [recurseTags]; with no container tag every
    value is a string. *)
Theorem parseTLV_objects_under_containers (fuel : nat) (data : jstr)
    (recurseTags : list jstr) (r : gmap jstr tlv) (key : jstr) (val : tlv) :
  parseTLV fuel data recurseTags = Ret r ->
  r !! key = Some val ->
  (isObj val <-> key ∈ recurseTags)
  /\ (recurseTags = [] -> exists s, val = Str s).
Proof.
  intros Hr Hk.
  assert (H : isObj val <-> key ∈ recurseTags).
  { apply (parseTLV_loop_kinds _ _ _ _ _ _ Hr
             (fun k v E => ltac:(rewrite lookup_empty in E; discriminate))
             key val Hk). }
  split; [exact H|]. intros ->. destruct val as [s|m]; [eauto|].
  apply proj1 in H. specialize (H I). apply elem_of_nil in H. destruct H.
Qed.

Lemma parseTLV_objects_under_containers_witness :
  parseTLV 5 (lit "62070103ABC") [lit "62"]
  = Ret {[ lit "62" := Obj {[ lit "01" := Str (lit "ABC") ]} ]}
  /\ (isObj (Obj {[ lit "01" := Str (lit "ABC") ]}) <-> lit "62" ∈ [lit "62"]).
Proof.
  assert (H : parseTLV 5 (lit "62070103ABC") [lit "62"]
              = Ret {[ lit "62" := Obj {[ lit "01" := Str (lit "ABC") ]} ]})
    by (vm_compute; reflexivity).
  split; [exact H|].
  apply (parseTLV_objects_under_containers _ _ _ _ _ _ H).
  apply lookup_singleton_eq.
Defined.

(** ** Scanning what was serialized *)

Lemma slice_app_shift pre rest a b :
  0 <= a -> 0 <= b ->
  slice (pre ++ rest) (len pre + a) (len pre + b) = slice rest a b.
Proof.
  intros Ha Hb. unfold slice, len. rewrite length_app.
  destruct (Z.ltb_spec (Z.of_nat (length pre) + a) 0); [lia|].
  destruct (Z.ltb_spec (Z.of_nat (length pre) + b) 0); [lia|].
  destruct (Z.ltb_spec a 0); [lia|]. destruct (Z.ltb_spec b 0); [lia|].
  replace (Z.to_nat (Z.min (Z.of_nat (length pre) + a)
                       (Z.of_nat (length pre + length rest))))
    with (length pre + Z.to_nat (Z.min a (Z.of_nat (length rest))))%nat by lia.
  rewrite drop_app_add. f_equal. lia.
Qed.

Lemma digit_not_white d : 48 <= d <= 57 -> isWhiteSpace d = false.
Proof.
  intros Hd. unfold isWhiteSpace.
  repeat (match goal with
          | |- context [?a <=? ?b] => destruct (Z.leb_spec a b)
          | |- context [?a =? ?b] => destruct (Z.eqb_spec a b)
          end; try lia).
  all: reflexivity.
Qed.

Lemma digit_isDigit d : 48 <= d <= 57 -> isDigit d = true.
Proof.
  intros Hd. unfold isDigit.
  destruct (Z.leb_spec 48 d), (Z.leb_spec d 57); first [lia | reflexivity].
Qed.

(** The length field written by [generateTag] is read back by [parseInt]. *)
Lemma parseInt_length_field n :
  0 <= n < 100 -> parseInt (padStart 2 48 (toString 10 n)) = Some n.
Proof.
  intros Hn. rewrite toString10_two_digits by exact Hn.
  pose proof (Z.mod_pos_bound n 10 ltac:(lia)).
  assert (0 <= n / 10 < 10)
    by (split; [apply Z.div_pos | apply Z.div_lt_upper_bound]; lia).
  unfold parseInt. cbn [skipWhiteSpace].
  rewrite digit_not_white by lia.
  destruct (Z.eqb_spec (48 + n / 10) 45); [lia|].
  destruct (Z.eqb_spec (48 + n / 10) 43); [lia|].
  cbn [readDigits]. rewrite !digit_isDigit by lia.
  f_equal. pose proof (Z.div_mod n 10 ltac:(lia)). lia.
Qed.

(** An iteration at the head of an entry written by [generateTag] reads the
    id and the value back and moves behind the entry. *)
Lemma parseTLV_loop_generated fuel pre id value post recurseTags result :
  length id = 2%nat -> (length value <= 99)%nat ->
  parseTLV_loop (S fuel) (pre ++ generateTag id value ++ post) recurseTags
    (len pre) result
  = if arrayIncludes recurseTags id then
      match parseTLV_loop fuel value recurseTags 0 ∅ with
      | Ret sub =>
          parseTLV_loop fuel (pre ++ generateTag id value ++ post) recurseTags
            (len (pre ++ generateTag id value)) (<[id := Obj sub]> result)
      | Throw e => Throw e
      | OutOfFuel => OutOfFuel
      end
    else
      parseTLV_loop fuel (pre ++ generateTag id value ++ post) recurseTags
        (len (pre ++ generateTag id value)) (<[id := Str value]> result).
Proof.
  intros Hid Hval.
  assert (Hn : 0 <= len value < 100) by (unfold len; lia).
  set (field := padStart 2 48 (toString 10 (len value))).
  assert (Hfield : length field = 2%nat)
    by (unfold field; rewrite toString10_two_digits by exact Hn; reflexivity).
  assert (Hgen : generateTag id value = id ++ field ++ value) by reflexivity.
  set (e := generateTag id value ++ post).
  assert (Hlen : len e = 4 + len value + len post).
  { unfold e, len. rewrite Hgen, !length_app. lia. }
  assert (Hpost : 0 <= len post) by (unfold len; lia).
  assert (S1 : slice e 0 (0 + 2) = id).
  { destruct (slice_exact e 0 2 ltac:(lia) ltac:(lia) ltac:(lia)) as [-> _].
    unfold e. rewrite Hgen, <- !app_assoc. cbn [drop Z.to_nat].
    apply take_app_length'. rewrite Hid. reflexivity. }
  assert (S2 : slice e 2 (2 + 2) = field).
  { destruct (slice_exact e 2 2 ltac:(lia) ltac:(lia) ltac:(lia)) as [-> _].
    unfold e. rewrite Hgen, <- !app_assoc.
    rewrite drop_app_length' by (rewrite Hid; reflexivity).
    apply take_app_length'. rewrite Hfield. reflexivity. }
  assert (S3 : slice e 4 (4 + len value) = value).
  { destruct (slice_exact e 4 (len value) ltac:(lia) ltac:(lia) ltac:(lia))
      as [-> _].
    unfold e. rewrite Hgen, <- !app_assoc.
    change (Z.to_nat 4) with (2 + 2)%nat. rewrite <- drop_drop.
    rewrite drop_app_length' by (rewrite Hid; reflexivity).
    rewrite drop_app_length' by (rewrite Hfield; reflexivity).
    apply take_app_length'. unfold len. lia. }
  rewrite parseTLV_loop_S.
  assert (Hdata : len (pre ++ e) = len pre + len e)
    by (unfold len; rewrite length_app; lia).
  rewrite Hdata.
  destruct (Z.leb_spec (len pre + 4) (len pre + len e)); [|unfold len in *; lia].
  assert (E1 : slice (pre ++ e) (len pre) (len pre + 2) = id).
  { etransitivity; [|exact S1].
    rewrite <- (slice_app_shift pre e 0 (0 + 2)) by lia. f_equal; lia. }
  assert (E2 : slice (pre ++ e) (len pre + 2) (len pre + 4) = field).
  { etransitivity; [|exact S2].
    rewrite <- (slice_app_shift pre e 2 (2 + 2)) by lia. f_equal; lia. }
  assert (E3 : slice (pre ++ e) (len pre + 4) (len pre + 4 + len value) = value).
  { etransitivity; [|exact S3].
    rewrite <- (slice_app_shift pre e 4 (4 + len value)) by lia.
    f_equal; lia. }
  rewrite E2. unfold field. rewrite parseInt_length_field by exact Hn.
  destruct (Z.gtb_spec (len pre + 4 + len value) (len pre + len e));
    [unfold len in *; lia|].
  rewrite E1, E3.
  replace (len pre + (4 + len value)) with (len (pre ++ generateTag id value))
    by (unfold len; rewrite Hgen, !length_app; lia).
  reflexivity.
Qed.

Lemma parseTLV_loop_entry fuel pre id value post recurseTags result :
  length id = 2%nat -> (length value <= 99)%nat -> id ∉ recurseTags ->
  parseTLV_loop (S fuel) (pre ++ generateTag id value ++ post) recurseTags
    (len pre) result
  = parseTLV_loop fuel (pre ++ generateTag id value ++ post) recurseTags
      (len (pre ++ generateTag id value)) (<[id := Str value]> result).
Proof.
  intros Hid Hval Htag. rewrite parseTLV_loop_generated by assumption.
  unfold arrayIncludes. rewrite bool_decide_eq_false_2 by exact Htag.
  reflexivity.
Qed.

Lemma parseTLV_loop_rest fuel pre rest recurseTags result :
  stopsScan rest ->
  parseTLV_loop (S fuel) (pre ++ rest) recurseTags (len pre) result
  = Ret result.
Proof.
  intros Hstop. apply parseTLV_loop_stops.
  assert (Hdata : len (pre ++ rest) = len pre + len rest)
    by (unfold len; rewrite length_app; lia).
  rewrite Hdata, !slice_app_shift by lia.
  destruct Hstop as [H|[H|(n & H & Hn)]].
  - left. lia.
  - right. left. exact H.
  - right. right. exists n. split; [exact H | lia].
Qed.

Lemma parseTLV_loop_entries entries : forall fuel pre rest recurseTags result,
  Forall (wellFormedEntry recurseTags) entries -> stopsScan rest ->
  (length entries < fuel)%nat ->
  parseTLV_loop fuel (pre ++ serializeEntries entries ++ rest) recurseTags
    (len pre) result
  = Ret (storeEntries entries result).
Proof.
  induction entries as [|[id value] entries IH];
    intros fuel pre rest recurseTags result Hwf Hstop Hfuel;
    (destruct fuel as [|fuel]; [cbn in Hfuel; lia|]).
  - apply parseTLV_loop_rest, Hstop.
  - apply Forall_cons in Hwf as [(Hid & Hval & Htag) Hwf].
    unfold serializeEntries. cbn [map concat fst snd].
    rewrite <- (app_assoc (generateTag id value)).
    rewrite parseTLV_loop_entry by assumption.
    rewrite (app_assoc pre). apply IH; [assumption.. | cbn in Hfuel; lia].
Qed.

Lemma stopsScan_short rest : (length rest < 4)%nat -> stopsScan rest.
Proof. intros H. left. unfold len. lia. Qed.

(** X6.  Scanning what [generateTag] wrote gives the entries back: for
    entries with 2-character ids that are not container tags and values of
    at most 99 characters, written one after the other and followed by any
    rest at which the scan stops (nothing, fewer than 4 characters, a length
    field that is not a number or that passes the end), [parseTLV] returns
    exactly the entries, a later one replacing an earlier one with the same
    id, and drops the rest. *)
Theorem parseTLV_serializeEntries (fuel : nat) (entries : list (jstr * jstr))
    (rest : jstr) (recurseTags : list jstr) :
  Forall (wellFormedEntry recurseTags) entries -> stopsScan rest ->
  (length entries < fuel)%nat ->
  parseTLV fuel (serializeEntries entries ++ rest) recurseTags
  = Ret (storeEntries entries ∅).
Proof.
  intros Hwf Hstop Hfuel. unfold parseTLV.
  apply (parseTLV_loop_entries entries fuel [] rest recurseTags ∅);
    assumption.
Qed.

Lemma parseTLV_serializeEntries_witness :
  Forall (wellFormedEntry [])
    [(lit "00", lit "01"); (lit "58", lit "ID"); (lit "00", lit "02")]
  /\ stopsScan (lit "5909AB")
  /\ (3 < 4)%nat
  /\ parseTLV 4 (lit "000201" ++ lit "5802ID" ++ lit "000202" ++ lit "5909AB") []
     = Ret (<[lit "00" := Str (lit "02")]>
              (<[lit "58" := Str (lit "ID")]>
                 (<[lit "00" := Str (lit "01")]> ∅))).
Proof.
  assert (H1 : Forall (wellFormedEntry [])
    [(lit "00", lit "01"); (lit "58", lit "ID"); (lit "00", lit "02")]).
  { repeat (apply Forall_cons_2;
            [split; [reflexivity|]; split; [cbn; lia | apply not_elem_of_nil]|]).
    apply Forall_nil_2. }
  assert (H2 : stopsScan (lit "5909AB")).
  { right. right. exists 9. split; [reflexivity | vm_compute; reflexivity]. }
  assert (H3 : (3 < 4)%nat) by lia.
  split; [exact H1|]. split; [exact H2|]. split; [exact H3|].
  exact (parseTLV_serializeEntries 4 _ _ [] H1 H2 H3).
Defined.

Lemma storeEntries_lookup entries : forall result id,
  (id ∉ entries.*1 -> storeEntries entries result !! id = result !! id)
  /\ (forall value, NoDup entries.*1 -> (id, value) ∈ entries ->
        storeEntries entries result !! id = Some (Str value)).
Proof.
  induction entries as [|[id0 value0] entries IH]; intros result id;
    cbn [storeEntries fold_left fmap list_fmap fst snd].
  - split; [reflexivity|]. intros value _ H. apply elem_of_nil in H. destruct H.
  - fold (storeEntries entries (<[id0 := Str value0]> result)). split.
    + intros Hnot. apply not_elem_of_cons in Hnot as [Hne Hnot].
      rewrite (proj1 (IH _ _) Hnot). apply lookup_insert_ne. congruence.
    + intros value Hnd Hin. apply NoDup_cons in Hnd as [Hfresh Hnd].
      apply elem_of_cons in Hin as [[= -> ->]|Hin].
      * rewrite (proj1 (IH _ _) Hfresh). apply lookup_insert_eq.
      * apply (proj2 (IH _ _) value Hnd Hin).
Qed.

Lemma sortedKeys_NoDup {A} (obj : gmap jstr A) : NoDup (sortedKeys obj).
Proof. unfold sortedKeys. rewrite merge_sort_Permutation. apply NoDup_elements. Qed.

Lemma sortedKeys_length {A} (obj : gmap jstr A) :
  length (sortedKeys obj) = size obj.
Proof.
  unfold sortedKeys. rewrite merge_sort_Permutation.
  rewrite <- size_dom. reflexivity.
Qed.

Lemma rebuild_serializeEntries obj :
  rebuild obj = serializeEntries (entriesOf obj).
Proof.
  rewrite rebuild_entries. unfold serializeEntries, entriesOf.
  rewrite map_map. reflexivity.
Qed.

(** ** What [validate] looks at *)

Lemma occursAt_app pat s extra j :
  occursAt pat s j -> occursAt pat (s ++ extra) j.
Proof.
  unfold occursAt. intros H. rewrite drop_app. apply prefix_app_r, H.
Qed.

Lemma occursAt_length pat s j :
  occursAt pat s j -> pat <> [] -> (j + length pat <= length s)%nat.
Proof.
  intros [k Hk] Hne. apply (f_equal length) in Hk.
  rewrite length_drop, length_app in Hk.
  destruct pat; [congruence|]. cbn in *. lia.
Qed.

Lemma occursAt_app_inv pat s extra j :
  occursAt pat (s ++ extra) j -> (j + length pat <= length s)%nat ->
  occursAt pat s j.
Proof.
  unfold occursAt. intros [k Hk] Hlen.
  rewrite drop_app_le in Hk by lia.
  apply (f_equal (take (length pat))) in Hk.
  rewrite take_app_le in Hk by (rewrite length_drop; lia).
  rewrite take_app_length in Hk.
  exists (drop (length pat) (drop j s)).
  rewrite <- Hk at 1. symmetry. apply take_drop.
Qed.

Lemma firstOccurrence_app pat s extra i :
  pat <> [] -> firstOccurrence pat s i -> firstOccurrence pat (s ++ extra) i.
Proof.
  intros Hne [Hocc Hfirst]. split; [apply occursAt_app, Hocc|].
  intros j Hj Hocc'. apply (Hfirst j Hj).
  apply (occursAt_app_inv _ _ extra); [exact Hocc'|].
  pose proof (occursAt_length _ _ _ Hocc Hne). lia.
Qed.

Lemma crcHeader_nonempty : crcHeader <> [].
Proof. discriminate. Qed.

(** When [validate] accepts, the header is somewhere and 8 characters
    follow its first occurrence. *)
Lemma validate_true_inv s :
  validate s = true ->
  exists i, firstOccurrence crcHeader s i /\ (i + 8 <= length s)%nat.
Proof.
  intros Hv.
  destruct (indexOf_from_spec crcHeader s 0 ltac:(lia))
    as [[_ Hno]|(i & _ & _ & Hi)].
  - unfold validate in Hv. rewrite (indexOf_absent _ _ Hno) in Hv.
    discriminate.
  - exists i. split; [exact Hi|].
    rewrite (validate_at_first _ _ Hi) in Hv.
    destruct (Nat.ltb_spec (length s) (i + 8)); [discriminate | lia].
Qed.

(** X8.  [validate] reads nothing behind the 4 characters of the checksum:
    once 8 characters follow the first header, characters appended to the
    payload do not change the answer; in particular an accepted payload stays
    accepted with anything appended. *)
Theorem validate_ignores_trailing (s extra : jstr) :
  (forall i, firstOccurrence crcHeader s i -> (i + 8 <= length s)%nat ->
     validate (s ++ extra) = validate s)
  /\ (validate s = true -> validate (s ++ extra) = true).
Proof.
  assert (H : forall i, firstOccurrence crcHeader s i ->
    (i + 8 <= length s)%nat -> validate (s ++ extra) = validate s).
  { intros i Hi Hlen.
    rewrite (validate_at_first _ _ Hi).
    rewrite (validate_at_first _ _
               (firstOccurrence_app _ _ extra _ crcHeader_nonempty Hi)).
    rewrite length_app.
    destruct (Nat.ltb_spec (length s + length extra) (i + 8)); [lia|].
    destruct (Nat.ltb_spec (length s) (i + 8)); [lia|].
    rewrite drop_app_le, take_app_le, (take_app_le s) by
      (rewrite ?length_drop; lia).
    reflexivity. }
  split; [exact H|]. intros Hv.
  destruct (validate_true_inv _ Hv) as (i & Hi & Hlen).
  rewrite (H i Hi Hlen). exact Hv.
Qed.

Lemma validate_ignores_trailing_witness :
  validate (lit "63046007") = true
  /\ validate (lit "63046007" ++ lit "anything") = true.
Proof.
  assert (H : validate (lit "63046007") = true) by (vm_compute; reflexivity).
  split; [exact H|].
  exact (proj2 (validate_ignores_trailing _ (lit "anything")) H).
Defined.

(** X9.  [validate] accepts what [generate] returns whenever the header
    [generate] appends, 8 characters before the end, is the first ["6304"]
    of the payload. *)
Theorem validate_generate_first_header (fuel : nat)
    (dataQris amountFixed dataInvoice dataDescription out : jstr) :
  generate fuel dataQris amountFixed dataInvoice dataDescription = Ret out ->
  firstOccurrence crcHeader out (length out - 8) ->
  validate out = true.
Proof.
  intros Hgen Hfirst. apply generate_shape in Hgen as [body ->].
  apply validate_appended_crc.
  replace (length body) with
    (length ((body ++ crcHeader) ++ calculateCRC16 (body ++ crcHeader)) - 8)%nat;
    [exact Hfirst|].
  rewrite !length_app, calculateCRC16_length. cbn. lia.
Qed.

Lemma firstOccurrence_indexOf pat s i :
  indexOf s pat = Z.of_nat i -> firstOccurrence pat s i.
Proof.
  unfold indexOf. intros E.
  destruct (indexOf_from_spec pat s 0 ltac:(lia)) as [[E' _]|(j & E' & _ & Hj)];
    [lia|].
  replace i with j by lia. exact Hj.
Qed.

Lemma validate_generate_first_header_witness :
  generate 200 staticBase (toFixed2 5000) (lit "INV-002") (lit "Electricity")
  = Ret (lit "00020101021126560012ID.GPNQR01189360091123456789020215ID202325412393903054075000.0062260107INV-0020711Electricity6304948E")
  /\ firstOccurrence crcHeader
       (lit "00020101021126560012ID.GPNQR01189360091123456789020215ID202325412393903054075000.0062260107INV-0020711Electricity6304948E")
       (length (lit "00020101021126560012ID.GPNQR01189360091123456789020215ID202325412393903054075000.0062260107INV-0020711Electricity6304948E") - 8)
  /\ validate (lit "00020101021126560012ID.GPNQR01189360091123456789020215ID202325412393903054075000.0062260107INV-0020711Electricity6304948E") = true.
Proof.
  assert (H1 : generate 200 staticBase (toFixed2 5000) (lit "INV-002") (lit "Electricity")
    = Ret (lit "00020101021126560012ID.GPNQR01189360091123456789020215ID202325412393903054075000.0062260107INV-0020711Electricity6304948E"))
    by (vm_compute; reflexivity).
  assert (H2 : firstOccurrence crcHeader
       (lit "00020101021126560012ID.GPNQR01189360091123456789020215ID202325412393903054075000.0062260107INV-0020711Electricity6304948E")
       (length (lit "00020101021126560012ID.GPNQR01189360091123456789020215ID202325412393903054075000.0062260107INV-0020711Electricity6304948E") - 8))
    by (apply firstOccurrence_indexOf; vm_compute; reflexivity).
  split; [exact H1|]. split; [exact H2|].
  exact (validate_generate_first_header _ _ _ _ _ _ H1 H2).
Defined.

(** ** What [generate] reads and writes *)

Lemma firstOccurrence_through pat s i :
  pat <> [] -> firstOccurrence pat s i ->
  firstOccurrence pat (take i s ++ pat) i /\ length (take i s) = i.
Proof.
  intros Hne [Hocc Hfirst].
  pose proof (occursAt_length _ _ _ Hocc Hne) as Hlen.
  assert (Hi : length (take i s) = i) by (rewrite length_take; lia).
  split; [|exact Hi]. split.
  - unfold occursAt. rewrite drop_app_length' by (symmetry; exact Hi).
    reflexivity.
  - intros j Hj Hocc'. apply (Hfirst j Hj).
    destruct Hocc as [k Hk].
    replace s with ((take i s ++ pat) ++ k)
      by (rewrite <- app_assoc, <- Hk; apply take_drop).
    apply occursAt_app, Hocc'.
Qed.

(** X10.  [generate] reads the base payload up to its first ["6304"] only:
    whatever follows that header, such as an old checksum or further
    entries, is discarded and has no effect on the result. *)
Theorem generate_reads_up_to_first_header (fuel : nat)
    (dataQris amountFixed dataInvoice dataDescription : jstr) (i : nat) :
  firstOccurrence crcHeader dataQris i ->
  generate fuel dataQris amountFixed dataInvoice dataDescription
  = generate fuel (take i dataQris ++ crcHeader) amountFixed dataInvoice
      dataDescription.
Proof.
  intros Hi.
  destruct (firstOccurrence_through _ _ _ crcHeader_nonempty Hi) as [Hi' Hlen].
  pose proof (indexOf_first _ _ _ Hi) as [E Hle].
  pose proof (indexOf_first _ _ _ Hi') as [E' Hle'].
  assert (Hinc : forall s, firstOccurrence crcHeader s i ->
    includes s crcHeader = true)
    by (intros s [Hs _]; apply includes_spec; eauto).
  unfold generate. rewrite (Hinc _ Hi), (Hinc _ Hi'), E, E'.
  change 0 with (Z.of_nat 0). rewrite !slice_inside by lia.
  rewrite !drop_0, Nat.sub_0_r.
  rewrite (take_app_length' _ _ i) by (symmetry; exact Hlen). reflexivity.
Qed.

Lemma generate_reads_up_to_first_header_witness :
  firstOccurrence crcHeader staticBase 145
  /\ generate 200 staticBase (toFixed2 5000) [] []
     = generate 200 (take 145 staticBase ++ crcHeader) (toFixed2 5000) [] [].
Proof.
  assert (H : firstOccurrence crcHeader staticBase 145)
    by (apply firstOccurrence_indexOf; vm_compute; reflexivity).
  split; [exact H|].
  exact (generate_reads_up_to_first_header 200 _ _ _ _ _ H).
Defined.

Lemma rebuild_contains obj id val :
  obj !! id = Some val ->
  exists pre post, rebuild obj = pre ++ generateTag id (rebuild_val val) ++ post.
Proof.
  intros Hid.
  assert (Hin : id ∈ sortedKeys obj) by (apply sortedKeys_elem; eauto).
  apply list_elem_of_split in Hin as (l1 & l2 & Hl).
  rewrite rebuild_entries, Hl, map_app, concat_app. cbn [map concat].
  unfold entryOf at 2. rewrite Hid. eauto.
Qed.

Lemma rebuild_singleton id s :
  rebuild {[ id := Str s ]} = generateTag id s.
Proof.
  rewrite rebuild_entries. unfold sortedKeys.
  rewrite dom_singleton_L, elements_singleton.
  cbn. unfold entryOf. rewrite lookup_singleton_eq. cbn. apply app_nil_r.
Qed.

Lemma rebuild_addData dataInvoice dataDescription :
  let addData0 : gmap jstr tlv := ∅ in
  let addData1 :=
    if truthy dataInvoice
    then <[lit "01" := Str dataInvoice]> addData0 else addData0 in
  let addData2 :=
    if truthy dataDescription
    then <[lit "07" := Str dataDescription]> addData1 else addData1 in
  rebuild addData2 = additionalData dataInvoice dataDescription.
Proof.
  cbv zeta. unfold additionalData.
  destruct (truthy dataInvoice), (truthy dataDescription).
  - rewrite rebuild_entries.
    assert (Hk : sortedKeys (<[lit "07" := Str dataDescription]>
                   (<[lit "01" := Str dataInvoice]> (∅ : gmap jstr tlv)))
                 = [lit "01"; lit "07"]).
    { unfold sortedKeys. rewrite !dom_insert_L, dom_empty_L.
      vm_compute. reflexivity. }
    rewrite Hk. cbn [map concat]. unfold entryOf.
    rewrite lookup_insert_eq, lookup_insert_ne, lookup_insert_eq
      by (intros [=]).
    cbn [from_option rebuild_val]. rewrite app_nil_r. reflexivity.
  - rewrite app_nil_r. apply (rebuild_singleton (lit "01")).
  - apply (rebuild_singleton (lit "07")).
  - reflexivity.
Qed.

(** X11.  Every payload [generate] returns holds the entry of tag ["54"]
    with the formatted amount and, when an invoice or a description is
    given, the entry of tag ["62"] whose value is the invoice under ["01"]
    followed by the description under ["07"] (a tag ["54"] or ["62"] of the
    base is replaced); the payload ends with ["6304"] and the checksum of
    all that precedes it. *)
Theorem generate_writes_amount_and_additional_data (fuel : nat)
    (dataQris amountFixed dataInvoice dataDescription out : jstr) :
  generate fuel dataQris amountFixed dataInvoice dataDescription = Ret out ->
  exists body,
    out = (body ++ crcHeader) ++ calculateCRC16 (body ++ crcHeader)
    /\ (exists pre post,
          body = pre ++ generateTag (lit "54") amountFixed ++ post)
    /\ (truthy dataInvoice || truthy dataDescription = true ->
        exists pre post,
          body = pre
                 ++ generateTag (lit "62")
                      (additionalData dataInvoice dataDescription)
                 ++ post).
Proof.
  unfold generate. destruct (negb _); [discriminate|].
  destruct (parseTLV fuel _ _) as [t| |]; [|discriminate..].
  intros [= <-]. eexists. split; [reflexivity|].
  pose proof (rebuild_addData dataInvoice dataDescription) as Hadd.
  cbv zeta in Hadd.
  destruct (truthy dataInvoice || truthy dataDescription).
  - split.
    + apply (rebuild_contains _ (lit "54") (Str amountFixed)).
      rewrite lookup_insert_ne by (intros [=]). apply lookup_insert_eq.
    + intros _. rewrite <- Hadd.
      apply (rebuild_contains _ (lit "62") (Obj _)). apply lookup_insert_eq.
  - split; [|discriminate].
    apply (rebuild_contains _ (lit "54") (Str amountFixed)).
    apply lookup_insert_eq.
Qed.

Lemma generate_writes_amount_and_additional_data_witness :
  generate 200 staticBase (toFixed2 5000) (lit "INV-002") (lit "Electricity")
  = Ret (lit "00020101021126560012ID.GPNQR01189360091123456789020215ID202325412393903054075000.0062260107INV-0020711Electricity6304948E")
  /\ generateTag (lit "62") (additionalData (lit "INV-002") (lit "Electricity"))
     = lit "62260107INV-0020711Electricity"
  /\ exists body,
       lit "00020101021126560012ID.GPNQR01189360091123456789020215ID202325412393903054075000.0062260107INV-0020711Electricity6304948E"
       = (body ++ crcHeader) ++ calculateCRC16 (body ++ crcHeader)
       /\ (exists pre post,
             body = pre ++ generateTag (lit "54") (toFixed2 5000) ++ post)
       /\ (truthy (lit "INV-002") || truthy (lit "Electricity") = true ->
           exists pre post,
             body = pre
                    ++ generateTag (lit "62")
                         (additionalData (lit "INV-002") (lit "Electricity"))
                    ++ post).
Proof.
  assert (H : generate 200 staticBase (toFixed2 5000) (lit "INV-002") (lit "Electricity")
    = Ret (lit "00020101021126560012ID.GPNQR01189360091123456789020215ID202325412393903054075000.0062260107INV-0020711Electricity6304948E"))
    by (vm_compute; reflexivity).
  split; [exact H|]. split; [vm_compute; reflexivity|].
  exact (generate_writes_amount_and_additional_data _ _ _ _ _ _ H).
Defined.

(** ** Scanning nested serializations *)

Lemma generateTag_length id value :
  (length id + 2 + length value <= length (generateTag id value))%nat.
Proof.
  unfold generateTag, padStart. cbv zeta.
  rewrite !length_app, length_replicate. unfold codeunit. lia.
Qed.

Lemma serializeEntries_length entries :
  (length entries <= length (serializeEntries entries))%nat.
Proof.
  induction entries as [|[id value] entries IH]; [cbn; lia|].
  unfold serializeEntries in *. cbn [map concat fst snd length].
  rewrite length_app. pose proof (generateTag_length id value). lia.
Qed.

Lemma entriesOf_flatUnder recurseTags obj :
  flatUnder recurseTags obj ->
  Forall (wellFormedEntry recurseTags) (entriesOf obj)
  /\ storeEntries (entriesOf obj) ∅ = obj.
Proof.
  intros Hflat.
  assert (Hkeys : (entriesOf obj).*1 = sortedKeys obj).
  { unfold entriesOf. rewrite <- list_fmap_compose. apply list_fmap_id. }
  split.
  - apply Forall_forall. intros [id value] Hin.
    apply list_elem_of_fmap in Hin as (id' & [= -> ->] & Hid).
    apply sortedKeys_elem in Hid as [val Hval].
    destruct (Hflat _ _ Hval) as (Hlen & Htag & s & -> & Hs).
    rewrite Hval. cbn. split; [exact Hlen|]. split; [exact Hs | exact Htag].
  - apply map_eq. intros id.
    destruct (obj !! id) as [val|] eqn:Hval.
    + destruct (Hflat _ _ Hval) as (_ & _ & s & -> & _).
      apply storeEntries_lookup; [rewrite Hkeys; apply sortedKeys_NoDup|].
      apply list_elem_of_fmap. exists id. rewrite Hval. split; [reflexivity|].
      apply sortedKeys_elem. eauto.
    + rewrite (proj1 (storeEntries_lookup _ _ _)); [apply lookup_empty|].
      rewrite Hkeys, sortedKeys_elem, Hval. intros [? [=]].
Qed.

(** A flat object under a container tag is scanned back from its
    serialization with any fuel above the length of the serialization. *)
Lemma parseTLV_loop_flatUnder fuel recurseTags sub :
  flatUnder recurseTags sub -> (length (rebuild sub) < fuel)%nat ->
  parseTLV_loop fuel (rebuild sub) recurseTags 0 ∅ = Ret sub.
Proof.
  intros Hflat Hfuel.
  destruct (entriesOf_flatUnder _ _ Hflat) as [Hwf Hstore].
  rewrite rebuild_serializeEntries in *.
  rewrite <- Hstore at 2.
  pose proof (parseTLV_loop_entries (entriesOf sub) fuel [] [] recurseTags ∅
                Hwf (stopsScan_short [] ltac:(cbn; lia))) as E.
  cbn [app] in E. rewrite app_nil_r in E. apply E.
  pose proof (serializeEntries_length (entriesOf sub)). lia.
Qed.

Lemma parseTLV_loop_items recurseTags items : forall fuel pre post result,
  Forall (scanItem recurseTags) items ->
  (length (serializeItems items ++ post) < fuel)%nat ->
  parseTLV_loop fuel (pre ++ serializeItems items ++ post) recurseTags
    (len pre) result
  = parseTLV_loop (fuel - length items)
      (pre ++ serializeItems items ++ post) recurseTags
      (len (pre ++ serializeItems items)) (storeItems items result).
Proof.
  induction items as [|[id val] items IH]; intros fuel pre post result Hall Hfuel.
  - cbn. rewrite Nat.sub_0_r, app_nil_r. reflexivity.
  - apply Forall_cons in Hall as [(Hid & Hlen & Hkind) Hall].
    cbn [fst snd] in Hid, Hlen, Hkind.
    unfold serializeItems in *. cbn [map concat fst snd] in *.
    rewrite <- (app_assoc (generateTag id (rebuild_val val))) in *.
    destruct fuel as [|fuel]; [cbn in Hfuel; lia|].
    rewrite length_app in Hfuel.
    pose proof (generateTag_length id (rebuild_val val)) as Hgen.
    rewrite parseTLV_loop_generated by assumption.
    assert (Hnext : forall v,
      parseTLV_loop fuel
        (pre ++ generateTag id (rebuild_val val)
             ++ concat (map (fun e => generateTag e.1 (rebuild_val e.2)) items)
             ++ post) recurseTags
        (len (pre ++ generateTag id (rebuild_val val))) (<[id := v]> result)
      = parseTLV_loop (S fuel - length ((id, val) :: items))
          (pre ++ generateTag id (rebuild_val val)
               ++ concat (map (fun e => generateTag e.1 (rebuild_val e.2)) items)
               ++ post) recurseTags
          (len (pre ++ generateTag id (rebuild_val val)
                    ++ concat (map (fun e => generateTag e.1 (rebuild_val e.2))
                                 items)))
          (storeItems items (<[id := v]> result))).
    { intros v. rewrite !(app_assoc pre).
      rewrite IH by (auto; lia). reflexivity. }
    unfold arrayIncludes. destruct val as [s|sub].
    + rewrite bool_decide_eq_false_2 by exact Hkind. apply Hnext.
    + destruct Hkind as [Htag Hflat].
      rewrite bool_decide_eq_true_2 by exact Htag.
      change (rebuild_val (Obj sub)) with (rebuild sub) in *.
      rewrite (parseTLV_loop_flatUnder fuel recurseTags sub Hflat) by lia.
      apply Hnext.
Qed.

Lemma storeItems_lookup items : forall result id,
  (id ∉ items.*1 -> storeItems items result !! id = result !! id)
  /\ (forall val, NoDup items.*1 -> (id, val) ∈ items ->
        storeItems items result !! id = Some val).
Proof.
  induction items as [|[id0 val0] items IH]; intros result id;
    cbn [storeItems fold_left fmap list_fmap fst snd].
  - split; [reflexivity|]. intros val _ H. apply elem_of_nil in H. destruct H.
  - fold (storeItems items (<[id0 := val0]> result)). split.
    + intros Hnot. apply not_elem_of_cons in Hnot as [Hne Hnot].
      rewrite (proj1 (IH _ _) Hnot). apply lookup_insert_ne. congruence.
    + intros val Hnd Hin. apply NoDup_cons in Hnd as [Hfresh Hnd].
      apply elem_of_cons in Hin as [[= -> ->]|Hin].
      * rewrite (proj1 (IH _ _) Hfresh). apply lookup_insert_eq.
      * apply (proj2 (IH _ _) val Hnd Hin).
Qed.

Lemma itemsOf_spec recurseTags obj :
  rebuild obj = serializeItems (itemsOf obj)
  /\ storeItems (itemsOf obj) ∅ = obj
  /\ (scannable recurseTags obj -> Forall (scanItem recurseTags) (itemsOf obj))
  /\ length (itemsOf obj) = size obj.
Proof.
  assert (Hkeys : (itemsOf obj).*1 = sortedKeys obj).
  { unfold itemsOf. rewrite <- list_fmap_compose. apply list_fmap_id. }
  split; [|split; [|split]].
  - rewrite rebuild_entries. unfold serializeItems, itemsOf.
    rewrite map_map. f_equal. apply map_ext. intros id.
    unfold entryOf. cbn. destruct (obj !! id); reflexivity.
  - apply map_eq. intros id.
    destruct (obj !! id) as [val|] eqn:Hval.
    + apply storeItems_lookup; [rewrite Hkeys; apply sortedKeys_NoDup|].
      apply list_elem_of_fmap. exists id. rewrite Hval. split; [reflexivity|].
      apply sortedKeys_elem. eauto.
    + rewrite (proj1 (storeItems_lookup _ _ _)); [apply lookup_empty|].
      rewrite Hkeys, sortedKeys_elem, Hval. intros [? [=]].
  - intros Hscan. apply Forall_forall. intros [id val] Hin.
    apply list_elem_of_fmap in Hin as (id' & [= -> ->] & Hid).
    apply sortedKeys_elem in Hid as [val Hval]. rewrite Hval.
    apply (Hscan _ _ Hval).
  - unfold itemsOf. rewrite length_map. apply sortedKeys_length.
Qed.

Lemma serializeItems_app l1 l2 :
  serializeItems (l1 ++ l2) = serializeItems l1 ++ serializeItems l2.
Proof. unfold serializeItems. rewrite map_app, concat_app. reflexivity. Qed.

Lemma serializeItems_length items :
  (length items <= length (serializeItems items))%nat.
Proof.
  induction items as [|[id val] items IH]; [cbn; lia|].
  unfold serializeItems in *. cbn [map concat fst snd length].
  rewrite length_app. pose proof (generateTag_length id (rebuild_val val)). lia.
Qed.

(** Entries that are scanned back, followed by a rest at which the scan
    stops. *)
Lemma parseTLV_items fuel recurseTags items rest :
  Forall (scanItem recurseTags) items -> stopsScan rest ->
  (length (serializeItems items ++ rest) < fuel)%nat ->
  parseTLV fuel (serializeItems items ++ rest) recurseTags
  = Ret (storeItems items ∅).
Proof.
  intros Hall Hstop Hfuel. unfold parseTLV.
  pose proof (parseTLV_loop_items recurseTags items fuel [] rest ∅ Hall Hfuel)
    as E.
  cbn [app] in E. change (len []) with 0 in E. rewrite E.
  pose proof (serializeItems_length items) as Hle.
  rewrite length_app in Hfuel.
  destruct (fuel - length items)%nat as [|f] eqn:Ef; [lia|].
  apply parseTLV_loop_rest, Hstop.
Qed.

(** X7.  [parseTLV] undoes [rebuild] through one level of nesting: an
    object that holds strings under ordinary ids and flat objects under the
    container tags, every serialized value being at most 99 characters long,
    is returned unchanged by scanning its serialization with those container
    tags; a rest at which the scan stops is dropped. *)
Theorem parseTLV_rebuild_nested (fuel : nat) (recurseTags : list jstr)
    (obj : gmap jstr tlv) (rest : jstr) :
  scannable recurseTags obj -> stopsScan rest ->
  (length (rebuild obj ++ rest) < fuel)%nat ->
  parseTLV fuel (rebuild obj ++ rest) recurseTags = Ret obj.
Proof.
  intros Hscan Hstop Hfuel.
  destruct (itemsOf_spec recurseTags obj) as (Hser & Hstore & Hall & _).
  rewrite Hser in *. rewrite <- Hstore at 2.
  apply parseTLV_items; auto.
Qed.

Lemma parseTLV_rebuild_nested_witness :
  scannable [lit "62"]
    {[ lit "54" := Str (lit "1.00");
       lit "62" := Obj {[ lit "01" := Str (lit "A") ]} ]}
  /\ stopsScan (lit "63")
  /\ parseTLV 30 (lit "54041.0062050101A" ++ lit "63") [lit "62"]
     = Ret {[ lit "54" := Str (lit "1.00");
              lit "62" := Obj {[ lit "01" := Str (lit "A") ]} ]}.
Proof.
  assert (H1 : scannable [lit "62"]
    {[ lit "54" := Str (lit "1.00");
       lit "62" := Obj {[ lit "01" := Str (lit "A") ]} ]}).
  { intros id val Hl.
    apply lookup_insert_Some in Hl as [[<- <-]|[_ Hl]].
    - split; [reflexivity|]. split; [cbn; lia|].
      cbn. intros H. apply list_elem_of_singleton in H. discriminate.
    - apply lookup_singleton_Some in Hl as [<- <-].
      split; [reflexivity|]. split; [vm_compute; lia|].
      cbn. split; [apply list_elem_of_singleton; reflexivity|].
      intros id val Hl. apply lookup_singleton_Some in Hl as [<- <-].
      split; [reflexivity|].
      split; [intros H; apply list_elem_of_singleton in H; discriminate|].
      eexists. split; [reflexivity | cbn; lia]. }
  assert (H2 : stopsScan (lit "63")) by (apply stopsScan_short; cbn; lia).
  split; [exact H1|]. split; [exact H2|].
  assert (Hr : rebuild {[ lit "54" := Str (lit "1.00");
                          lit "62" := Obj {[ lit "01" := Str (lit "A") ]} ]}
               = lit "54041.0062050101A") by (vm_compute; reflexivity).
  rewrite <- Hr.
  apply (parseTLV_rebuild_nested 30 _ _ _ H1 H2).
  rewrite Hr. vm_compute. lia.
Defined.

(** ** [generate] then [extract] *)

(** Without container tags and without a minus sign the result of the scan
    is a flat object. *)
Lemma parseTLV_flat fuel data r :
  45 ∉ data -> parseTLV fuel data [] = Ret r -> flatObject r.
Proof.
  intros Hd Hr id val Hk.
  destruct (parseTLV_loop_provenance _ _ _ _ _ _ Hr id val Hk)
    as [H|(j & n & H1 & H2 & H3 & -> & H5 & H6)].
  { rewrite lookup_empty in H. discriminate. }
  destruct (H6 Hd ltac:(lia)) as [Hj Hn].
  pose proof (parseInt_upper _ _ H2) as Hup.
  pose proof (slice_two_le data (j + 2)) as Hf.
  replace (j + 2 + 2) with (j + 4) in Hf by lia.
  assert (Hn99 : n < 100).
  { eapply Z.lt_le_trans; [exact Hup|].
    change 100 with (10 ^ Z.of_nat 2). apply Z.pow_le_mono_r; lia. }
  destruct (slice_exact data j 2 ltac:(lia) ltac:(lia) ltac:(lia)) as [_ Lk].
  destruct (slice_exact data (j + 4) n ltac:(lia) ltac:(lia) ltac:(lia))
    as [_ Lv].
  split; [exact Lk|].
  destruct H5 as [->|Ho].
  - eexists. split; [reflexivity|]. rewrite Lv. lia.
  - apply (parseTLV_loop_kinds _ _ _ _ _ _ Hr
             (fun k v E => ltac:(rewrite lookup_empty in E; discriminate))
             _ _ Hk) in Ho.
    apply elem_of_nil in Ho. destruct Ho.
Qed.

Lemma crc_entry data :
  crcHeader ++ calculateCRC16 data = generateTag (lit "63") (calculateCRC16 data).
Proof.
  unfold generateTag, len. rewrite calculateCRC16_length. reflexivity.
Qed.

(** The object [generate] builds for tag ["62"]. *)
Lemma addData_flat recurseTags dataInvoice dataDescription :
  lit "01" ∉ recurseTags -> lit "07" ∉ recurseTags ->
  (length (additionalData dataInvoice dataDescription) <= 99)%nat ->
  let addData0 : gmap jstr tlv := ∅ in
  let addData1 :=
    if truthy dataInvoice
    then <[lit "01" := Str dataInvoice]> addData0 else addData0 in
  let addData2 :=
    if truthy dataDescription
    then <[lit "07" := Str dataDescription]> addData1 else addData1 in
  flatUnder recurseTags addData2
  /\ addData2 !! lit "01"
     = (if truthy dataInvoice then Some (Str dataInvoice) else None)
  /\ addData2 !! lit "07"
     = (if truthy dataDescription then Some (Str dataDescription) else None).
Proof.
  intros H01 H07 Hlen. cbv zeta. unfold additionalData in Hlen.
  rewrite length_app in Hlen.
  pose proof (generateTag_length (lit "01") dataInvoice) as G1.
  pose proof (generateTag_length (lit "07") dataDescription) as G7.
  change (length (lit "01")) with 2%nat in G1.
  change (length (lit "07")) with 2%nat in G7.
  destruct (truthy dataInvoice), (truthy dataDescription);
    cbn [length] in Hlen.
  - split; [|split; [rewrite lookup_insert_ne by (intros [=]) |];
             apply lookup_insert_eq].
    intros id val Hl.
    apply lookup_insert_Some in Hl as [[<- <-]|[_ Hl]];
      [|apply lookup_insert_Some in Hl as [[<- <-]|[_ Hl]];
        [|rewrite lookup_empty in Hl; discriminate]];
      (split; [reflexivity|]; split; [assumption|]; eexists;
       split; [reflexivity | lia]).
  - split; [|split; [apply lookup_insert_eq |
                     rewrite lookup_insert_ne by (intros [=]);
                     apply lookup_empty]].
    intros id val Hl.
    apply lookup_insert_Some in Hl as [[<- <-]|[_ Hl]];
      [|rewrite lookup_empty in Hl; discriminate].
    split; [reflexivity|]. split; [assumption|]. eexists.
    split; [reflexivity | lia].
  - split; [|split; [rewrite lookup_insert_ne by (intros [=]);
                     apply lookup_empty | apply lookup_insert_eq]].
    intros id val Hl.
    apply lookup_insert_Some in Hl as [[<- <-]|[_ Hl]];
      [|rewrite lookup_empty in Hl; discriminate].
    split; [reflexivity|]. split; [assumption|]. eexists.
    split; [reflexivity | lia].
  - split; [|split; apply lookup_empty].
    intros id val Hl. rewrite lookup_empty in Hl. discriminate.
Qed.

Lemma storeItems_app l1 l2 result :
  storeItems (l1 ++ l2) result = storeItems l2 (storeItems l1 result).
Proof. apply fold_left_app. Qed.

(** X12.  [extract] reads back what [generate] wrote.  For a base payload
    without a minus sign that holds the header, an amount string of at most
    99 characters and an invoice or a description whose entries take at most
    99 characters together, [generate] returns a payload, and [extract] of
    that payload returns the amount under ["Transaction Amount"], the invoice
    and the description (those given) under ["Invoice Number"] and
    ["Description"] inside ["Additional Data"], and no ["CRC"] entry. *)
Theorem extract_generate (fuel : nat)
    (dataQris amountFixed dataInvoice dataDescription : jstr) :
  45 ∉ dataQris ->
  (exists i, occursAt crcHeader dataQris i) ->
  (length amountFixed <= 99)%nat ->
  truthy dataInvoice || truthy dataDescription = true ->
  (length (additionalData dataInvoice dataDescription) <= 99)%nat ->
  (length dataQris < fuel)%nat ->
  exists out,
    generate fuel dataQris amountFixed dataInvoice dataDescription = Ret out
    /\ forall fuel', (length out < fuel')%nat ->
       exists result nested,
         extract fuel' out = Ret result
         /\ result !! lit "Transaction Amount" = Some (Str amountFixed)
         /\ result !! lit "Additional Data" = Some (Obj nested)
         /\ nested !! lit "Invoice Number"
            = (if truthy dataInvoice then Some (Str dataInvoice) else None)
         /\ nested !! lit "Description"
            = (if truthy dataDescription
               then Some (Str dataDescription) else None)
         /\ result !! lit "CRC" = None.
Proof.
  intros Hd Hocc Ha Htruthy Hadd Hf.
  apply includes_spec in Hocc.
  assert (Hpre : 45 ∉ slice dataQris 0 (indexOf dataQris crcHeader)).
  { intros Hin. apply Hd.
    eapply elem_of_sublist; [exact Hin | apply slice_sublist]. }
  destruct (parseTLV_loop_terminates fuel
              (slice dataQris 0 (indexOf dataQris crcHeader)) [] 0 ∅ Hpre)
    as [tlv0 Ht0]; try lia.
  { pose proof (sublist_length _ _
                  (slice_sublist dataQris 0 (indexOf dataQris crcHeader))).
    unfold len. lia. }
  pose proof (parseTLV_flat _ _ _ Hpre Ht0) as Hflat0.
  destruct (addData_flat [lit "62"] dataInvoice dataDescription) as (Hflat & L01 & L07);
    [intros H; apply list_elem_of_singleton in H; discriminate..| exact Hadd |].
  pose proof (rebuild_addData dataInvoice dataDescription) as Radd.
  cbv zeta in Hflat, L01, L07, Radd.
  set (addData := if truthy dataDescription
                  then <[lit "07" := Str dataDescription]>
                         (if truthy dataInvoice
                          then <[lit "01" := Str dataInvoice]> ∅ else ∅)
                  else if truthy dataInvoice
                       then <[lit "01" := Str dataInvoice]> ∅ else ∅)
    in Hflat, L01, L07, Radd.
  set (tlv2 := <[lit "62" := Obj addData]>
                 (<[lit "54" := Str amountFixed]> tlv0)).
  set (crc := calculateCRC16 (rebuild tlv2 ++ crcHeader)).
  exists ((rebuild tlv2 ++ crcHeader) ++ crc). split.
  { unfold generate. rewrite Hocc. cbn [negb]. unfold parseTLV.
    rewrite Ht0, Htruthy. reflexivity. }
  intros fuel' Hf'.
  assert (Hscan : scannable [lit "62"] tlv2).
  { intros id val Hl. unfold tlv2 in Hl.
    apply lookup_insert_Some in Hl as [[<- <-]|[Hne62 Hl]].
    - split; [reflexivity|]. cbn [fst snd].
      change (rebuild_val (Obj addData)) with (rebuild addData).
      rewrite Radd. split; [exact Hadd|].
      split; [apply list_elem_of_singleton; reflexivity | exact Hflat].
    - assert (Hnot : id ∉ [lit "62"])
        by (intros H; apply list_elem_of_singleton in H; congruence).
      apply lookup_insert_Some in Hl as [[<- <-]|[_ Hl]].
      + split; [reflexivity|]. split; [exact Ha | exact Hnot].
      + destruct (Hflat0 _ _ Hl) as (Hlen & s & -> & Hs).
        split; [exact Hlen|]. split; [exact Hs | exact Hnot]. }
  destruct (itemsOf_spec [lit "62"] tlv2) as (Hser & Hstore & Hall & _).
  set (items := itemsOf tlv2 ++ [(lit "63", Str crc)]).
  assert (Hout : (rebuild tlv2 ++ crcHeader) ++ crc = serializeItems items ++ []).
  { unfold items. rewrite serializeItems_app, <- Hser, <- app_assoc.
    unfold crc. rewrite crc_entry. unfold serializeItems. cbn [map concat fst snd].
    rewrite !app_nil_r. reflexivity. }
  assert (Hitems : Forall (scanItem [lit "62"]) items).
  { apply Forall_app. split; [exact (Hall Hscan)|].
    apply Forall_cons_2; [|apply Forall_nil_2].
    split; [reflexivity|]. cbn [fst snd rebuild_val].
    split; [unfold crc; rewrite calculateCRC16_length; lia|].
    intros H. apply list_elem_of_singleton in H. discriminate. }
  assert (Hraw : parseTLV fuel' ((rebuild tlv2 ++ crcHeader) ++ crc) [lit "62"]
                 = Ret (<[lit "63" := Str crc]> tlv2)).
  { rewrite Hout in Hf' |- *.
    rewrite (parseTLV_items fuel' [lit "62"] items [] Hitems
               (stopsScan_short [] ltac:(cbn; lia)) Hf').
    unfold items. rewrite storeItems_app, Hstore. reflexivity. }
  assert (L54 : labelOf tagMap (lit "54") = lit "Transaction Amount")
    by (vm_compute; reflexivity).
  assert (L62 : labelOf tagMap (lit "62") = lit "Additional Data")
    by (vm_compute; reflexivity).
  assert (L63 : labelOf tagMap (lit "63") = lit "CRC")
    by (vm_compute; reflexivity).
  assert (S01 : labelOf subTagMap (lit "01") = lit "Invoice Number")
    by (vm_compute; reflexivity).
  assert (S07 : labelOf subTagMap (lit "07") = lit "Description")
    by (vm_compute; reflexivity).
  exists (relabel (delete (lit "63") (<[lit "63" := Str crc]> tlv2))),
    (relabelNested addData).
  split; [unfold extract; rewrite Hraw; reflexivity|].
  destruct (relabel_lookup (delete (lit "63") (<[lit "63" := Str crc]> tlv2)))
    as [Hlook _].
  destruct (relabelNested_lookup addData) as [Hnested _].
  rewrite <- L54, <- L62, <- L63, <- S01, <- S07, !Hlook, !Hnested.
  rewrite lookup_delete_eq, !lookup_delete_ne, !lookup_insert_ne
    by (intros [=]).
  unfold tlv2.
  rewrite lookup_insert_eq, lookup_insert_ne, lookup_insert_eq by (intros [=]).
  repeat split; assumption.
Qed.

Lemma extract_generate_witness :
  (45 ∉ staticBase)
  /\ (exists i, occursAt crcHeader staticBase i)
  /\ (length (toFixed2 15000) <= 99)%nat
  /\ truthy (lit "INV-004") || truthy (lit "Shopping") = true
  /\ (length (additionalData (lit "INV-004") (lit "Shopping")) <= 99)%nat
  /\ (length staticBase < 200)%nat
  /\ exists out,
       generate 200 staticBase (toFixed2 15000) (lit "INV-004") (lit "Shopping")
       = Ret out
       /\ forall fuel', (length out < fuel')%nat ->
          exists result nested,
            extract fuel' out = Ret result
            /\ result !! lit "Transaction Amount" = Some (Str (toFixed2 15000))
            /\ result !! lit "Additional Data" = Some (Obj nested)
            /\ nested !! lit "Invoice Number"
               = (if truthy (lit "INV-004")
                  then Some (Str (lit "INV-004")) else None)
            /\ nested !! lit "Description"
               = (if truthy (lit "Shopping")
                  then Some (Str (lit "Shopping")) else None)
            /\ result !! lit "CRC" = None.
Proof.
  assert (H0 : 45 ∉ staticBase)
    by (apply (bool_decide_eq_true_1 _); vm_compute; reflexivity).
  assert (H1 : exists i, occursAt crcHeader staticBase i)
    by (exists 145%nat; apply occursAt_dec; vm_compute; reflexivity).
  assert (H2 : (length (toFixed2 15000) <= 99)%nat) by (vm_compute; lia).
  assert (H3 : truthy (lit "INV-004") || truthy (lit "Shopping") = true)
    by reflexivity.
  assert (H4 : (length (additionalData (lit "INV-004") (lit "Shopping")) <= 99)%nat)
    by (vm_compute; lia).
  assert (H5 : (length staticBase < 200)%nat) by (vm_compute; lia).
  split; [exact H0|]. split; [exact H1|]. split; [exact H2|].
  split; [exact H3|]. split; [exact H4|]. split; [exact H5|].
  exact (extract_generate 200 _ _ _ _ H0 H1 H2 H3 H4 H5).
Defined.

(** ** [generate] on its own output *)

Lemma rebuild_same_values m1 m2 :
  rebuild_val <$> m1 = rebuild_val <$> m2 -> rebuild m1 = rebuild m2.
Proof. unfold rebuild. rewrite !rebuild_val_Obj. intros ->. reflexivity. Qed.

(** X13.  [generate] is idempotent where [validate] accepts its output:
    when the base has no minus sign, the amount string and the entries of the
    additional data take at most 99 characters each, and the header appended
    to the payload is its first ["6304"], generating again from the payload
    with the same arguments returns the same payload. *)
Theorem generate_idempotent (fuel fuel' : nat)
    (dataQris amountFixed dataInvoice dataDescription out : jstr) :
  45 ∉ dataQris ->
  (length amountFixed <= 99)%nat ->
  (length (additionalData dataInvoice dataDescription) <= 99)%nat ->
  generate fuel dataQris amountFixed dataInvoice dataDescription = Ret out ->
  firstOccurrence crcHeader out (length out - 8) ->
  (length out < fuel')%nat ->
  generate fuel' out amountFixed dataInvoice dataDescription = Ret out.
Proof.
  intros Hd Ha Hadd Hgen Hfirst Hf'.
  assert (Hpre : 45 ∉ slice dataQris 0 (indexOf dataQris crcHeader)).
  { intros Hin. apply Hd.
    eapply elem_of_sublist; [exact Hin | apply slice_sublist]. }
  pose proof (rebuild_addData dataInvoice dataDescription) as Radd.
  cbv zeta in Radd.
  unfold generate in Hgen. destruct (negb _); [discriminate|].
  destruct (parseTLV fuel _ _) as [tlv0| |] eqn:Ht0; [|discriminate..].
  pose proof (parseTLV_flat _ _ _ Hpre Ht0) as Hflat0.
  cbv zeta in Hgen.
  set (addData := if truthy dataDescription
                  then <[lit "07" := Str dataDescription]>
                         (if truthy dataInvoice
                          then <[lit "01" := Str dataInvoice]> ∅ else ∅)
                  else if truthy dataInvoice
                       then <[lit "01" := Str dataInvoice]> ∅ else ∅)
    in Hgen, Radd.
  set (tlv2 := if truthy dataInvoice || truthy dataDescription
               then <[lit "62" := Obj addData]>
                      (<[lit "54" := Str amountFixed]> tlv0)
               else <[lit "54" := Str amountFixed]> tlv0) in Hgen.
  injection Hgen as <-.
  set (crc := calculateCRC16 (rebuild tlv2 ++ crcHeader)) in *.
  assert (Hcrc : length crc = 4%nat) by apply calculateCRC16_length.
  assert (Hlen : (length ((rebuild tlv2 ++ crcHeader) ++ crc) - 8
                  = length (rebuild tlv2))%nat).
  { rewrite !length_app, Hcrc. cbn. lia. }
  rewrite Hlen in Hfirst.
  (* every value of [tlv2] is serialized in at most 99 characters *)
  assert (Hvals : forall id val, tlv2 !! id = Some val ->
    length id = 2%nat /\ (length (rebuild_val val) <= 99)%nat).
  { intros id val Hl. unfold tlv2 in Hl.
    assert (H1 : forall v,
      (<[lit "54" := Str amountFixed]> tlv0 : gmap jstr tlv) !! id = Some v ->
      length id = 2%nat /\ (length (rebuild_val v) <= 99)%nat).
    { intros v Hv. apply lookup_insert_Some in Hv as [[<- <-]|[_ Hv]].
      - split; [reflexivity | exact Ha].
      - destruct (Hflat0 _ _ Hv) as (? & s & -> & ?). auto. }
    destruct (truthy dataInvoice || truthy dataDescription); [|apply H1, Hl].
    apply lookup_insert_Some in Hl as [[<- <-]|[_ Hl]]; [|apply H1, Hl].
    split; [reflexivity|].
    change (rebuild_val (Obj addData)) with (rebuild addData).
    rewrite Radd. exact Hadd. }
  (* the flat object the second scan returns *)
  set (flat := (fun v => Str (rebuild_val v)) <$> tlv2).
  assert (Hsame : rebuild_val <$> flat = rebuild_val <$> tlv2).
  { apply map_eq. intros id. unfold flat. rewrite !lookup_fmap.
    destruct (tlv2 !! id); reflexivity. }
  assert (Hscan : scannable [] flat).
  { intros id val Hl. unfold flat in Hl. rewrite lookup_fmap in Hl.
    destruct (tlv2 !! id) as [v|] eqn:Hv; [|discriminate].
    injection Hl as <-. destruct (Hvals _ _ Hv) as [H1 H2].
    split; [exact H1|]. split; [exact H2 | apply not_elem_of_nil]. }
  assert (Hparse : parseTLV fuel' (rebuild tlv2) [] = Ret flat).
  { rewrite (rebuild_same_values tlv2 flat) by (symmetry; exact Hsame).
    destruct (itemsOf_spec [] flat) as (Hser & Hstore & Hall & _).
    rewrite <- (app_nil_r (rebuild flat)), Hser. rewrite <- Hstore at 2.
    apply parseTLV_items; [exact (Hall Hscan) | apply stopsScan_short; cbn; lia|].
    rewrite <- Hser, app_nil_r, (rebuild_same_values flat tlv2) by exact Hsame.
    rewrite !length_app in Hf'. lia. }
  pose proof (indexOf_first _ _ _ Hfirst) as [E _].
  assert (Hinc : includes ((rebuild tlv2 ++ crcHeader) ++ crc) crcHeader = true)
    by (apply includes_spec; exists (length (rebuild tlv2)); apply Hfirst).
  unfold generate. rewrite Hinc, E. cbn [negb].
  change 0 with (Z.of_nat 0).
  rewrite slice_inside by (rewrite !length_app; lia).
  rewrite drop_0, Nat.sub_0_r, <- app_assoc, take_app_length, Hparse.
  cbv zeta. fold addData.
  assert (Hre : rebuild
      (if truthy dataInvoice || truthy dataDescription
       then <[lit "62" := Obj addData]> (<[lit "54" := Str amountFixed]> flat)
       else <[lit "54" := Str amountFixed]> flat) = rebuild tlv2).
  { apply rebuild_same_values. unfold tlv2.
    assert (H54 : rebuild_val <$> (<[lit "54" := Str amountFixed]> flat)
                  = rebuild_val <$> (<[lit "54" := Str amountFixed]> tlv2)).
    { rewrite !fmap_insert, Hsame. reflexivity. }
    unfold tlv2 in H54.
    destruct (truthy dataInvoice || truthy dataDescription).
    - rewrite fmap_insert, H54, !fmap_insert.
      apply map_eq. intros k. rewrite !lookup_insert.
      repeat case_decide; reflexivity.
    - rewrite H54, !fmap_insert, insert_insert_eq. reflexivity. }
  rewrite Hre. fold crc. rewrite app_assoc. reflexivity.
Qed.

Lemma generate_idempotent_witness :
  (45 ∉ staticBase)
  /\ (length (toFixed2 5000) <= 99)%nat
  /\ (length (additionalData (lit "INV-002") (lit "Electricity")) <= 99)%nat
  /\ generate 200 staticBase (toFixed2 5000) (lit "INV-002") (lit "Electricity")
     = Ret (lit "00020101021126560012ID.GPNQR01189360091123456789020215ID202325412393903054075000.0062260107INV-0020711Electricity6304948E")
  /\ generate 200
       (lit "00020101021126560012ID.GPNQR01189360091123456789020215ID202325412393903054075000.0062260107INV-0020711Electricity6304948E")
       (toFixed2 5000) (lit "INV-002") (lit "Electricity")
     = Ret (lit "00020101021126560012ID.GPNQR01189360091123456789020215ID202325412393903054075000.0062260107INV-0020711Electricity6304948E").
Proof.
  assert (H0 : 45 ∉ staticBase)
    by (apply (bool_decide_eq_true_1 _); vm_compute; reflexivity).
  assert (H1 : (length (toFixed2 5000) <= 99)%nat) by (vm_compute; lia).
  assert (H2 : (length (additionalData (lit "INV-002") (lit "Electricity")) <= 99)%nat)
    by (vm_compute; lia).
  assert (H3 : generate 200 staticBase (toFixed2 5000) (lit "INV-002") (lit "Electricity")
    = Ret (lit "00020101021126560012ID.GPNQR01189360091123456789020215ID202325412393903054075000.0062260107INV-0020711Electricity6304948E"))
    by (vm_compute; reflexivity).
  split; [exact H0|]. split; [exact H1|]. split; [exact H2|].
  split; [exact H3|].
  apply (generate_idempotent 200 200 _ _ _ _ _ H0 H1 H2 H3).
  - apply firstOccurrence_indexOf. vm_compute. reflexivity.
  - vm_compute. lia.
Defined.

(** ** Short inputs *)

(** X14.  Inputs too short to hold anything: on a string of fewer than 4
    characters [parseTLV] and [extract] return the empty object (with any
    fuel at all), and on a string of fewer than 8 characters [validate]
    answers [false]. *)
Theorem short_inputs (fuel : nat) (data : jstr) (recurseTags : list jstr) :
  ((length data < 4)%nat ->
     parseTLV (S fuel) data recurseTags = Ret ∅
     /\ extract (S fuel) data = Ret ∅)
  /\ ((length data < 8)%nat -> validate data = false).
Proof.
  split.
  - intros Hlen.
    assert (H : forall tags, parseTLV (S fuel) data tags = Ret ∅).
    { intros tags. apply parseTLV_loop_stops. left. unfold len. lia. }
    split; [apply H|]. unfold extract. rewrite H.
    rewrite delete_empty. reflexivity.
  - intros Hlen.
    destruct (indexOf_from_spec crcHeader data 0 ltac:(lia))
      as [[_ Hno]|(i & _ & _ & Hi)].
    + unfold validate. rewrite (indexOf_absent _ _ Hno). reflexivity.
    + rewrite (validate_at_first _ _ Hi).
      destruct (Nat.ltb_spec (length data) (i + 8)); [reflexivity | lia].
Qed.

Lemma short_inputs_witness :
  (length (lit "630") < 4)%nat
  /\ parseTLV 1 (lit "630") [] = Ret ∅
  /\ validate (lit "6304600") = false.
Proof.
  assert (H1 : (length (lit "630") < 4)%nat) by (cbn; lia).
  assert (H2 : (length (lit "6304600") < 8)%nat) by (cbn; lia).
  split; [exact H1|].
  split; [exact (proj1 (proj1 (short_inputs 0 (lit "630") []) H1))|].
  exact (proj2 (short_inputs 0 (lit "6304600") []) H2).
Defined.
